(** * Log quality analyzer (noisylogdetector.py): line classification

    A shallow embedding of the line-classification engine of
    [noisylogdetector.py]: the timestamp gate
    [starts_with_date_and_timestamp], the level detector [detect_level],
    the redactor [redact_sensitive] and the scan loop of [analyze],
    together with the properties its specification states about them.

    Text.  A Python [str] is modelled as a list of characters, and a
    character as a code point of the Latin-1 range (Rocq's [ascii], code
    points 0..255).  The character classes below are the classes Python 3
    uses for [str] patterns and [str] methods, restricted to that range.

    Regular expressions.  The program delegates matching to Python's [re]
    module.  Patterns are modelled in abstract syntax (what [re.compile]
    produces) for the fragment: literals, character classes,
    concatenation, alternation, greedy repetition, and the zero-width
    assertions [^], [$], [\b].  [ends] enumerates the ways a pattern can
    match at a position, in the priority order of CPython's backtracking
    engine; [re.match], [re.search] and [re.sub] are defined on top of it
    the way the engine drives them.  [matches] is the matching relation
    the enumeration computes ([ends_spec]).

    Input.  [analyze] is modelled on the list of the lines the file
    yields; the loop numbers them from 1 and strips trailing whitespace
    from each. *)

From Stdlib Require Import Ascii String DecimalString DecimalNat List Sorted Bool
  Arith NArith Lia.
Import ListNotations.

Local Open Scope list_scope.

(* ================================================================= *)
(** ** Text and character classes *)

Definition text := list ascii.

(** String literals of the source, as texts. *)
Definition T (s : string) : text := list_ascii_of_string s.

Module Chars.

Definition code (c : ascii) : N := N_of_ascii c.

Definition between (lo hi : N) (c : ascii) : bool :=
  (lo <=? code c)%N && (code c <=? hi)%N.

(** [\d]: decimal digits. *)
Definition is_digit (c : ascii) : bool := between 48 57 c.

(** [\s] and [str.isspace]: TAB..CR, FS..US, SPACE, NEL, NBSP. *)
Definition is_space (c : ascii) : bool :=
  between 9 13 c || between 28 32 c
  || (code c =? 133)%N || (code c =? 160)%N.

(** [\w]: alphanumeric characters and the underscore. *)
Definition is_word (c : ascii) : bool :=
  between 48 57 c || between 65 90 c || (code c =? 95)%N
  || between 97 122 c
  || (code c =? 170)%N || between 178 179 c || (code c =? 181)%N
  || between 185 186 c || between 188 190 c
  || between 192 214 c || between 216 246 c || between 248 255 c.

(** Characters with an uppercase form distinct from their lowercase one. *)
Definition is_upper (c : ascii) : bool :=
  between 65 90 c || between 192 214 c || between 216 222 c.

(** [str.lower] on one character. *)
Definition lower (c : ascii) : ascii :=
  if is_upper c then ascii_of_N (code c + 32) else c.

End Chars.

Import Chars.

(** [str.lower]. *)
Definition str_lower (s : text) : text := map lower s.

(** [str.rstrip] with no argument: drop trailing whitespace. *)
Fixpoint rstrip (s : text) : text :=
  match s with
  | [] => []
  | c :: s' =>
      match rstrip s' with
      | [] => if is_space c then [] else [c]
      | t => c :: t
      end
  end.

Definition text_eq_dec : forall a b : text, {a = b} + {a <> b} :=
  list_eq_dec ascii_dec.

(** [x in xs] for a list of strings. *)
Definition mem (x : text) (xs : list text) : bool :=
  if in_dec text_eq_dec x xs then true else false.

Fixpoint prefixb (k s : text) : bool :=
  match k, s with
  | [], _ => true
  | _ :: _, [] => false
  | a :: k', b :: s' => Ascii.eqb a b && prefixb k' s'
  end.

(** [k in s] for strings: [k] occurs as a contiguous substring of [s]. *)
Fixpoint str_in (k s : text) : bool :=
  prefixb k s ||
  match s with
  | [] => false
  | _ :: s' => str_in k s'
  end.

(** [sep.join(xs)]. *)
Fixpoint join (sep : text) (xs : list text) : text :=
  match xs with
  | [] => []
  | [x] => x
  | x :: xs' => x ++ sep ++ join sep xs'
  end.

(* ================================================================= *)
(** ** Regular expressions *)

Module Regex.

Inductive re : Type :=
| Eps : re
| Chr : ascii -> re                 (* a literal character *)
| Cls : (ascii -> bool) -> re       (* a character class *)
| Cat : re -> re -> re
| Alt : re -> re -> re              (* [r1|r2], [r1] tried first *)
| Star : re -> re                   (* greedy [r*] *)
| Bol : re                          (* [^] *)
| Eol : re                          (* [$] *)
| WordB : re.                       (* [\b] *)

(** Derived forms. *)
Definition Plus (r : re) : re := Cat r (Star r).
Definition Opt (r : re) : re := Alt r Eps.

Fixpoint Lit (t : text) : re :=
  match t with
  | [] => Eps
  | c :: t' => Cat (Chr c) (Lit t')
  end.

Fixpoint Rep (n : nat) (r : re) : re :=
  match n with
  | O => Eps
  | S n' => Cat r (Rep n' r)
  end.

Fixpoint Alts (rs : list re) : re :=
  match rs with
  | [] => Cls (fun _ => false)
  | [r] => r
  | r :: rs' => Alt r (Alts rs')
  end.

Definition digit : re := Cls is_digit.
Definition space : re := Cls is_space.

(** A position in the subject: the character before it (if any) and the
    text from it on. *)
Definition pos : Type := (option ascii * text)%type.

Definition word_before (prev : option ascii) : bool :=
  match prev with Some c => is_word c | None => false end.

Definition word_after (s : text) : bool :=
  match s with c :: _ => is_word c | [] => false end.

(** [\b]: exactly one side of the position is a word character. *)
Definition at_boundary (prev : option ascii) (s : text) : bool :=
  xorb (word_before prev) (word_after s).

(** [$]: the end of the subject, or just before a final newline. *)
Definition at_end (s : text) : bool :=
  match s with
  | [] => true
  | [c] => Ascii.eqb c "010"%char
  | _ => false
  end.

Definition at_start (prev : option ascii) : bool :=
  match prev with None => true | Some _ => false end.

(** The loop of a greedy repetition whose body's ends are given by
    [body]: try one more iteration first, then stop.  After an iteration
    that consumed input the loop goes on; after one that consumed nothing
    the engine leaves the loop at once.  [n] bounds the number of
    iterations (one more than the length of the text is enough). *)
Fixpoint star_ends (body : option ascii -> text -> list pos)
         (n : nat) (prev : option ascii) (s : text) : list pos :=
  match n with
  | O => [(prev, s)]
  | S n' =>
      flat_map
        (fun q : pos =>
           if length (snd q) <? length s
           then star_ends body n' (fst q) (snd q) else [q])
        (body prev s)
      ++ [(prev, s)]
  end.

(** [ends r prev s]: the positions at which a match of [r] that starts
    at position [(prev, s)] can end, in the order a backtracking engine
    tries them. *)
Fixpoint ends (r : re) (prev : option ascii) (s : text) : list pos :=
  match r with
  | Eps => [(prev, s)]
  | Chr c =>
      match s with
      | x :: s' => if Ascii.eqb x c then [(Some x, s')] else []
      | [] => []
      end
  | Cls p =>
      match s with
      | x :: s' => if p x then [(Some x, s')] else []
      | [] => []
      end
  | Cat r1 r2 =>
      flat_map (fun q : pos => ends r2 (fst q) (snd q)) (ends r1 prev s)
  | Alt r1 r2 => ends r1 prev s ++ ends r2 prev s
  | Star r1 => star_ends (ends r1) (S (length s)) prev s
  | Bol => if at_start prev then [(prev, s)] else []
  | Eol => if at_end s then [(prev, s)] else []
  | WordB => if at_boundary prev s then [(prev, s)] else []
  end.

(** [re.match]: is there a match starting at the beginning? *)
Definition re_match (r : re) (s : text) : bool :=
  match ends r None s with [] => false | _ :: _ => true end.

(** [re.search]: is there a match starting at some position, scanning
    start positions from the left? *)
Fixpoint search_at (r : re) (prev : option ascii) (s : text) : bool :=
  match ends r prev s with
  | _ :: _ => true
  | [] =>
      match s with
      | [] => false
      | c :: s' => search_at r (Some c) s'
      end
  end.

Definition re_search (r : re) (s : text) : bool := search_at r None s.

(** The first end in priority order, where an empty match is refused
    when [adv] is set (the engine's [must_advance]). *)
Definition first_end (adv : bool) (r : re) (prev : option ascii) (s : text)
  : option pos :=
  find (fun q : pos => negb (adv && (length (snd q) =? length s)))
       (ends r prev s).

(** [re.sub]'s loop: find the next match at or after the position, copy
    the text skipped, append the replacement, and go on from the end of
    the match; right after an empty match the next match at the same
    position has to be non-empty. *)
Fixpoint sub_loop (fuel : nat) (r : re) (repl : text)
         (prev : option ascii) (s : text) (adv : bool) : text :=
  match fuel with
  | O => s
  | S fuel' =>
      match first_end adv r prev s with
      | Some q =>
          repl ++ sub_loop fuel' r repl (fst q) (snd q)
                           (length (snd q) =? length s)
      | None =>
          match s with
          | [] => []
          | c :: s' => c :: sub_loop fuel' r repl (Some c) s' false
          end
      end
  end.

Definition re_sub (r : re) (repl : text) (s : text) : text :=
  sub_loop (2 * length s + 2) r repl None s false.

End Regex.

Import Regex.

(* ================================================================= *)
(** ** The program *)

(** The rules dictionary returned by [load_rules], with the four keys
    [analyze] reads.  Sensitive patterns are kept in abstract syntax. *)
Record rules : Type := {
  sensitive_patterns : list re;
  failure_keywords : list text;
  noisy_log_levels : list text;
  required_severity_on_failure : list text
}.

(** An entry of a result list: the dictionary with keys ["line"], ["log"]
    and ["reason"]. *)
Record finding : Type := {
  line : nat;
  log : text;
  reason : text
}.

(** [\d{2}:\d{2}:\d{2}] *)
Definition hms : re :=
  Cat (Rep 2 digit) (Cat (Chr ":") (Cat (Rep 2 digit)
    (Cat (Chr ":") (Rep 2 digit)))).

(** [(?:\.\d+)?] *)
Definition frac : re := Opt (Cat (Chr ".") (Plus digit)).

(** [\d{4}-\d{2}-\d{2}] *)
Definition ymd : re :=
  Cat (Rep 4 digit) (Cat (Chr "-") (Cat (Rep 2 digit)
    (Cat (Chr "-") (Rep 2 digit)))).

Definition month_names : list text :=
  [T "Jan"; T "Feb"; T "Mar"; T "Apr"; T "May"; T "Jun";
   T "Jul"; T "Aug"; T "Sep"; T "Oct"; T "Nov"; T "Dec"].

(** The three alternatives of the timestamp pattern. *)
Definition alt_time : re := Cat hms frac.
Definition alt_date_time : re := Cat ymd (Cat (Plus space) (Cat hms frac)).
Definition alt_month_day : re :=
  Cat (Alts (map Lit month_names))
      (Cat (Plus space) (Cat (Cat digit (Opt digit))
         (Cat (Plus space) hms))).

Definition timestamp_re : re :=
  Cat Bol (Cat (Star space)
    (Alt alt_time (Alt alt_date_time alt_month_day))).

Definition starts_with_date_and_timestamp (line : text) : bool :=
  re_match timestamp_re line.

Definition level_names : list text :=
  [T "FATAL"; T "ERROR"; T "WARN"; T "INFO"; T "DEBUG"; T "TRACE"].

Definition UNKNOWN : text := T "UNKNOWN".

(** [\b{lvl}\b] *)
Definition level_re (lvl : text) : re := Cat WordB (Cat (Lit lvl) WordB).

(** The [for lvl in (...)] loop of [detect_level], over the levels left. *)
Fixpoint detect_level_from (lvls : list text) (line : text) : text :=
  match lvls with
  | [] => UNKNOWN
  | lvl :: lvls' =>
      if re_search (level_re lvl) line then lvl
      else detect_level_from lvls' line
  end.

Definition detect_level (line : text) : text :=
  detect_level_from level_names line.

Definition compile_patterns (patterns : list re) : list re :=
  map (fun p => p) patterns.

Definition REDACTED : text := T "[REDACTED]".

(** The closure [redact_sensitive] of [analyze], with the compiled
    patterns it captures as a parameter. *)
Fixpoint redact_sensitive (sensitive_res : list re) (line : text) : text :=
  match sensitive_res with
  | [] => line
  | r :: rs => redact_sensitive rs (re_sub r REDACTED line)
  end.

(** The three accumulators of [analyze]. *)
Record result : Type := {
  noisy_logs : list finding;
  sensitive_logs : list finding;
  severity_violations : list finding
}.

Definition empty_result : result :=
  {| noisy_logs := []; sensitive_logs := []; severity_violations := [] |}.

Definition add_noisy (f : finding) (st : result) : result :=
  {| noisy_logs := noisy_logs st ++ [f];
     sensitive_logs := sensitive_logs st;
     severity_violations := severity_violations st |}.

Definition add_sensitive (f : finding) (st : result) : result :=
  {| noisy_logs := noisy_logs st;
     sensitive_logs := sensitive_logs st ++ [f];
     severity_violations := severity_violations st |}.

Definition add_severity (f : finding) (st : result) : result :=
  {| noisy_logs := noisy_logs st;
     sensitive_logs := sensitive_logs st;
     severity_violations := severity_violations st ++ [f] |}.

(** [sensitive_res = compile_patterns(rules["sensitive_patterns"])] *)
Definition sensitive_res (rs : rules) : list re :=
  compile_patterns (sensitive_patterns rs).

Section Analyze.

Variable rs : rules.

(** The [for r in sensitive_res: ... break] loop, over the patterns
    left. *)
Fixpoint sensitive_loop (res : list re) (ln : nat) (l : text)
         (st : result) : result :=
  match res with
  | [] => st
  | r :: res' =>
      if re_search r l then
        add_sensitive
          {| line := ln;
             log := redact_sensitive (sensitive_res rs) l;
             reason := T "Sensitive / PII data detected" |} st
      else sensitive_loop res' ln l st
  end.

(** One iteration of the scan loop, on line number [ln] and the line
    [raw] as read from the file. *)
Definition analyze_line (st : result) (ln : nat) (raw : text) : result :=
  let l := rstrip raw in
  if negb (starts_with_date_and_timestamp l) then st
  else
    let level := detect_level l in
    let st1 :=
      if mem level (noisy_log_levels rs) then
        add_noisy
          {| line := ln;
             log := redact_sensitive (sensitive_res rs) l;
             reason := T "Noisy log level: " ++ level |} st
      else st in
    let st2 := sensitive_loop (sensitive_res rs) ln l st1 in
    if existsb (fun k => str_in k (str_lower l)) (failure_keywords rs)
    then
      if negb (mem level (required_severity_on_failure rs)) then
        add_severity
          {| line := ln;
             log := redact_sensitive (sensitive_res rs) l;
             reason :=
               T "Failure logged without required severity: "
               ++ join (T ", ") (required_severity_on_failure rs) |} st2
      else st2
    else st2.

(** [for ln, line in enumerate(f, 1)], from line number [ln] on. *)
Fixpoint scan_from (ln : nat) (lines : list text) (st : result) : result :=
  match lines with
  | [] => st
  | raw :: lines' => scan_from (S ln) lines' (analyze_line st ln raw)
  end.

(** [analyze], on the lines of the log file. *)
Definition analyze (lines : list text) : result :=
  scan_from 1 lines empty_result.

End Analyze.

(* ================================================================= *)
(** ** What it means for a pattern to match *)

(** The last character of a text, if any: the character before the
    position that follows the text. *)
Definition last_char (s : text) : option ascii :=
  match rev s with [] => None | c :: _ => Some c end.

(** The character before the position reached after reading [u] from a
    position whose previous character is [prev]. *)
Definition last_or (prev : option ascii) (u : text) : option ascii :=
  match last_char u with Some c => Some c | None => prev end.

(** [matches r prev u b]: the pattern [r] matches exactly the text [u],
    read at a position preceded by [prev] and followed by [b]. *)
Inductive matches : re -> option ascii -> text -> text -> Prop :=
| M_Eps : forall prev b, matches Eps prev [] b
| M_Chr : forall c prev b, matches (Chr c) prev [c] b
| M_Cls : forall (f : ascii -> bool) c prev b,
    f c = true -> matches (Cls f) prev [c] b
| M_Cat : forall r1 r2 prev u1 u2 b,
    matches r1 prev u1 (u2 ++ b) ->
    matches r2 (last_or prev u1) u2 b ->
    matches (Cat r1 r2) prev (u1 ++ u2) b
| M_AltL : forall r1 r2 prev u b,
    matches r1 prev u b -> matches (Alt r1 r2) prev u b
| M_AltR : forall r1 r2 prev u b,
    matches r2 prev u b -> matches (Alt r1 r2) prev u b
| M_Star0 : forall r prev b, matches (Star r) prev [] b
| M_StarS : forall r prev u1 u2 b,
    u1 <> [] ->
    matches r prev u1 (u2 ++ b) ->
    matches (Star r) (last_or prev u1) u2 b ->
    matches (Star r) prev (u1 ++ u2) b
| M_Bol : forall b, matches Bol None [] b
| M_Eol : forall prev b, at_end b = true -> matches Eol prev [] b
| M_WordB : forall prev b,
    at_boundary prev b = true -> matches WordB prev [] b.

(** A raw match of [r] somewhere in [t]: [t] splits into the text before
    the match, the matched text and the text after it. *)
Definition has_match (r : re) (t : text) : Prop :=
  exists a u b, t = a ++ u ++ b /\ matches r (last_char a) u b.

(** [k] occurs in [s] as a contiguous substring. *)
Definition infix (k s : text) : Prop :=
  exists pre post, s = pre ++ k ++ post.


(** [tok] occurs in [s] as a whole word: an occurrence with no word
    character right before it and none right after it. *)
Definition whole_word (tok s : text) : Prop :=
  exists pre post,
    s = pre ++ tok ++ post /\
    word_before (last_char pre) = false /\ word_after post = false.

(** A token that starts and ends with a word character. *)
Definition word_token (tok : text) : Prop :=
  word_after tok = true /\ word_before (last_char tok) = true.

(* ================================================================= *)
(** ** The findings of one line *)

(** The findings of a result list that are reported for line [k]. *)
Definition findings_on (k : nat) (fs : list finding) : list finding :=
  filter (fun f => line f =? k) fs.

(** Does some sensitive pattern match the line? *)
Definition any_sensitive (rs : rules) (l : text) : bool :=
  existsb (fun r => re_search r l) (sensitive_res rs).

(** Does some failure keyword occur in the lowercased line? *)
Definition any_failure_keyword (rs : rules) (l : text) : bool :=
  existsb (fun k => str_in k (str_lower l)) (failure_keywords rs).

(** The entries [analyze] builds for line [ln] with stripped text [l]. *)
Definition noisy_finding (rs : rules) (ln : nat) (l : text) : finding :=
  {| line := ln;
     log := redact_sensitive (sensitive_res rs) l;
     reason := T "Noisy log level: " ++ detect_level l |}.

Definition sensitive_finding (rs : rules) (ln : nat) (l : text) : finding :=
  {| line := ln;
     log := redact_sensitive (sensitive_res rs) l;
     reason := T "Sensitive / PII data detected" |}.

Definition severity_finding (rs : rules) (ln : nat) (l : text) : finding :=
  {| line := ln;
     log := redact_sensitive (sensitive_res rs) l;
     reason :=
       T "Failure logged without required severity: "
       ++ join (T ", ") (required_severity_on_failure rs) |}.

(** What line [ln], read as [raw], adds to each of the three lists. *)
Definition noisy_of (rs : rules) (ln : nat) (raw : text) : list finding :=
  let l := rstrip raw in
  if starts_with_date_and_timestamp l
     && mem (detect_level l) (noisy_log_levels rs)
  then [noisy_finding rs ln l] else [].

Definition sensitive_of (rs : rules) (ln : nat) (raw : text) : list finding :=
  let l := rstrip raw in
  if starts_with_date_and_timestamp l && any_sensitive rs l
  then [sensitive_finding rs ln l] else [].

Definition severity_of (rs : rules) (ln : nat) (raw : text) : list finding :=
  let l := rstrip raw in
  if starts_with_date_and_timestamp l
     && any_failure_keyword rs l
     && negb (mem (detect_level l) (required_severity_on_failure rs))
  then [severity_finding rs ln l] else [].


(* ================================================================= *)
(** ** The shapes of a timestamp *)

(** [n] decimal digits. *)
Definition digits (n : nat) (t : text) : Prop :=
  length t = n /\ forallb is_digit t = true.

(** [HH:MM:SS] *)
Definition is_hms (t : text) : Prop :=
  exists h m s,
    t = h ++ T ":" ++ m ++ T ":" ++ s /\
    digits 2 h /\ digits 2 m /\ digits 2 s.

(** The optional fractional suffix: nothing, or a dot and one or more
    digits. *)
Definition is_frac (t : text) : Prop :=
  t = [] \/
  exists ds, t = T "." ++ ds /\ ds <> [] /\ forallb is_digit ds = true.

(** [YYYY-MM-DD] *)
Definition is_ymd (t : text) : Prop :=
  exists y m d,
    t = y ++ T "-" ++ m ++ T "-" ++ d /\
    digits 4 y /\ digits 2 m /\ digits 2 d.

Section Shapes.

(** The characters accepted between the fields of a timestamp. *)
Variable sep : ascii -> bool.

(** One or more separator characters. *)
Definition seps (t : text) : Prop :=
  t <> [] /\ forallb sep t = true.

(** Shape (a): [HH:MM:SS] with an optional fraction. *)
Definition shape_time (t : text) : Prop :=
  exists x f, t = x ++ f /\ is_hms x /\ is_frac f.

(** Shape (b): [YYYY-MM-DD], separators, shape (a). *)
Definition shape_date_time (t : text) : Prop :=
  exists d sp tm,
    t = d ++ sp ++ tm /\ is_ymd d /\ seps sp /\ shape_time tm.

(** Shape (c): month abbreviation, separators, a day of one or two
    digits, separators, [HH:MM:SS]. *)
Definition shape_month_day (t : text) : Prop :=
  exists mon sp1 day sp2 tm,
    t = mon ++ sp1 ++ day ++ sp2 ++ tm /\
    In mon month_names /\ seps sp1 /\
    (digits 1 day \/ digits 2 day) /\ seps sp2 /\ is_hms tm.

(** The line starts, after optional leading whitespace, with one of the
    three shapes. *)
Definition timestamp_start (l : text) : Prop :=
  exists ws stamp rest,
    l = ws ++ stamp ++ rest /\
    forallb is_space ws = true /\
    (shape_time stamp \/ shape_date_time stamp \/ shape_month_day stamp).

End Shapes.

(** The separator of the specification read to the letter: the space
    character. *)
Definition is_blank (c : ascii) : bool := Ascii.eqb c " "%char.

(** The timestamp pattern with [sep] as the class of the characters
    between the fields, to decide [timestamp_start sep];
    [timestamp_re] is the instance with [\s]. *)
Definition alt_date_time_with (sep : ascii -> bool) : re :=
  Cat ymd (Cat (Plus (Cls sep)) (Cat hms frac)).

Definition alt_month_day_with (sep : ascii -> bool) : re :=
  Cat (Alts (map Lit month_names))
      (Cat (Plus (Cls sep)) (Cat (Cat digit (Opt digit))
         (Cat (Plus (Cls sep)) hms))).

Definition timestamp_re_with (sep : ascii -> bool) : re :=
  Cat Bol (Cat (Star space)
    (Alt alt_time (Alt (alt_date_time_with sep) (alt_month_day_with sep)))).

(** A text whose last character is a digit. *)
Definition ends_with_digit (t : text) : Prop :=
  exists t0 d, t = t0 ++ [d] /\ is_digit d = true.

(* ================================================================= *)
(** ** Redaction with provenance *)

(** A character together with a mark telling whether redaction inserted
    it (a character of a [[REDACTED]] token) or it comes from the line. *)
Definition mchar : Type := (ascii * bool)%type.
Definition mtext : Type := list mchar.

Definition marked (c : mchar) : bool := snd c.
Definition erase (m : mtext) : text := map fst m.
Definition plain (s : text) : mtext := map (fun c => (c, false)) s.
Definition inserted (s : text) : mtext := map (fun c => (c, true)) s.

(** [sub_loop] on a marked text: matching reads the characters only, a
    copied character keeps its mark, a replacement is inserted marked. *)
Fixpoint sub_loop_marked (fuel : nat) (r : re) (repl : text)
         (prev : option ascii) (m : mtext) (adv : bool) : mtext :=
  match fuel with
  | O => m
  | S fuel' =>
      match first_end adv r prev (erase m) with
      | Some q =>
          inserted repl
          ++ sub_loop_marked fuel' r repl (fst q)
               (skipn (length m - length (snd q)) m)
               (length (snd q) =? length (erase m))
      | None =>
          match m with
          | [] => []
          | c :: m' => c :: sub_loop_marked fuel' r repl (Some (fst c)) m' false
          end
      end
  end.

Definition re_sub_marked (r : re) (repl : text) (m : mtext) : mtext :=
  sub_loop_marked (2 * length (erase m) + 2) r repl None m false.

Fixpoint redact_marked (sensitive_res : list re) (m : mtext) : mtext :=
  match sensitive_res with
  | [] => m
  | r :: rs => redact_marked rs (re_sub_marked r REDACTED m)
  end.

(** [patched m out]: [out] is [m] with some stretches (possibly empty
    ones) replaced by an inserted [[REDACTED]] token; every other
    character is kept, with its mark. *)
Inductive patched : mtext -> mtext -> Prop :=
| patched_nil : patched [] []
| patched_keep : forall c m out,
    patched m out -> patched (c :: m) (c :: out)
| patched_insert : forall u m out,
    patched m out -> patched (u ++ m) (inserted REDACTED ++ out).





(** [b'] offers a match ending before it at least what [b] offers: the
    same next character, and the end of the subject wherever [b] has it. *)
Definition ctx_le (b b' : text) : Prop :=
  hd_error b = hd_error b' /\ (at_end b = true -> at_end b' = true).





(** The steps the loop of [re.sub] still needs on [s]. *)
Definition sub_steps (s : text) (adv : bool) : nat :=
  2 * length s + (if adv then 1 else 2).


(* ================================================================= *)
(** ** Sample rules and lines *)

(** [\b\d{3}-\d{2}-\d{4}\b] *)
Definition ssn_re : re :=
  Cat WordB (Cat (Rep 3 digit) (Cat (Chr "-") (Cat (Rep 2 digit)
    (Cat (Chr "-") (Cat (Rep 4 digit) WordB))))).

Definition sample_rules : rules :=
  {| sensitive_patterns := [ssn_re];
     failure_keywords := [T "fail"; T "timeout"];
     noisy_log_levels := [T "INFO"; T "DEBUG"; T "TRACE"];
     required_severity_on_failure := [T "ERROR"; T "FATAL"] |}.

Definition sample_line : text :=
  T "2024-11-11 04:31:14 INFO connection timeout, ssn 123-45-6789".

Definition sample_redacted : text :=
  T "2024-11-11 04:31:14 INFO connection timeout, ssn [REDACTED]".

Definition garbage_line : text := T "garbage no timestamp ERROR fail".


(** [2024-11-11<TAB>04:31:14]: date and time separated by a tab. *)
Definition tab_line : text :=
  T "2024-11-11" ++ ["009"%char] ++ T "04:31:14".

(* ================================================================= *)
(** ** The result lists as a whole *)

(** What the lines from number [ln] on add to a result list, when one
    line adds [contrib]. *)
Fixpoint contribs (contrib : nat -> text -> list finding)
         (ln : nat) (lines : list text) : list finding :=
  match lines with
  | [] => []
  | raw :: lines' => contrib ln raw ++ contribs contrib (S ln) lines'
  end.

(** A finding, and a result, with the line numbers moved up by [k]. *)
Definition shift_finding (k : nat) (f : finding) : finding :=
  {| line := k + line f; log := log f; reason := reason f |}.

Definition shift_result (k : nat) (r : result) : result :=
  {| noisy_logs := map (shift_finding k) (noisy_logs r);
     sensitive_logs := map (shift_finding k) (sensitive_logs r);
     severity_violations := map (shift_finding k) (severity_violations r) |}.

(** Two results, list by list one after the other. *)
Definition append_results (r1 r2 : result) : result :=
  {| noisy_logs := noisy_logs r1 ++ noisy_logs r2;
     sensitive_logs := sensitive_logs r1 ++ sensitive_logs r2;
     severity_violations := severity_violations r1 ++ severity_violations r2 |}.

(** [subseq a b]: [a] is [b] with some characters left out. *)
Inductive subseq : text -> text -> Prop :=
| subseq_nil : subseq [] []
| subseq_keep : forall c a b, subseq a b -> subseq (c :: a) (c :: b)
| subseq_drop : forall c a b, subseq a b -> subseq a (c :: b).

(** The characters of a marked text that come from the line. *)
Definition from_line (m : mtext) : text :=
  erase (filter (fun c => negb (marked c)) m).

(* ================================================================= *)
(** ** The report *)

(** The double quote and the newline. *)
Definition dq : ascii := "034"%char.
Definition nl : text := ["010"%char].

(** [s.replace(old, new)] for an [old] of one character. *)
Fixpoint replace_char (old : ascii) (new : text) (s : text) : text :=
  match s with
  | [] => []
  | x :: s' =>
      (if Ascii.eqb x old then new else [x]) ++ replace_char old new s'
  end.

(** [html.escape(s)] with its default [quote=True]: the ampersand first,
    then the angle brackets, then the two quotes. *)
Definition escape (s : text) : text :=
  let s := replace_char "&" (T "&amp;") s in
  let s := replace_char "<" (T "&lt;") s in
  let s := replace_char ">" (T "&gt;") s in
  let s := replace_char dq (T "&quot;") s in
  replace_char "'" (T "&#x27;") s.

(** [str(n)] for a line number. *)
Definition str_of_nat (n : nat) : text :=
  T (NilZero.string_of_uint (Nat.to_uint n)).

(** [f.write(x)] on the text written to the file so far. *)
Definition write (x : text) (f : text) : text := f ++ x.

(** The text [generate_html] writes first. *)
Definition html_header : text :=
  nl ++ T "<html>" ++ nl
  ++ T "<head>" ++ nl
  ++ T "<title>Log Quality Report</title>" ++ nl
  ++ T "<style>" ++ nl
  ++ T "body { font-family: Arial; }" ++ nl
  ++ T "table { border-collapse: collapse; width: 100%; margin-bottom: 30px; }"
  ++ nl
  ++ T "th, td { border: 1px solid #ccc; padding: 6px; text-align: left; }"
  ++ nl
  ++ T "th { background: #f0f0f0; }" ++ nl
  ++ T "</style>" ++ nl
  ++ T "</head>" ++ nl
  ++ T "<body>" ++ nl
  ++ T "<h1>Log Quality Report</h1>" ++ nl.

(** The row of a section without findings. *)
Definition no_issues_row : text :=
  T "<tr><td colspan=" ++ [dq] ++ T "3" ++ [dq]
  ++ T ">No issues found in this section.</td></tr>".

(** The row of a finding. *)
Definition html_row (r : finding) : text :=
  T "<tr><td>" ++ str_of_nat (line r) ++ T "</td>"
  ++ T "<td>" ++ escape (reason r) ++ T "</td>"
  ++ T "<td>" ++ escape (log r) ++ T "</td></tr>".

(** [for r in rows: f.write(...)] *)
Fixpoint write_rows (rows : list finding) (f : text) : text :=
  match rows with
  | [] => f
  | r :: rows' => write_rows rows' (write (html_row r) f)
  end.

(** The closure [write_section] of [generate_html]. *)
Definition write_section (title : text) (rows : list finding) (f : text)
  : text :=
  let f := write (T "<h2>" ++ title ++ T "</h2>") f in
  let f := write (T "<table>") f in
  let f := write (T "<tr><th>Line</th><th>Reason</th><th>Log</th></tr>") f in
  let f :=
    match rows with
    | [] => write no_issues_row f
    | _ :: _ => write_rows rows f
    end in
  write (T "</table>") f.

(** [generate_html]: the text of the output file, opened for writing and
    so empty at the start. *)
Definition generate_html (noisy sensitive severity : list finding) : text :=
  let f := write html_header [] in
  let f := write_section (T "Noisy Logs") noisy f in
  let f := write_section (T "Sensitive / PII Logs") sensitive f in
  let f := write_section (T "Severity Violations") severity f in
  write (T "</body></html>") f.

(** What [generate_html] prints once the file is written. *)
Definition report_message (output : text) : text :=
  T "Report generated: " ++ output.

(** What [html.escape] makes of one character. *)
Definition escape_char (c : ascii) : text :=
  if Ascii.eqb c "&" then T "&amp;"
  else if Ascii.eqb c "<" then T "&lt;"
  else if Ascii.eqb c ">" then T "&gt;"
  else if Ascii.eqb c dq then T "&quot;"
  else if Ascii.eqb c "'" then T "&#x27;"
  else [c].

(** The characters with a meaning in HTML text and attribute values
    that [html.escape] replaces by a name. *)
Definition markup_char (c : ascii) : bool :=
  Ascii.eqb c "<" || Ascii.eqb c ">" || Ascii.eqb c dq || Ascii.eqb c "'".

(** The number of occurrences of [c] in [s]. *)
Definition count_char (c : ascii) (s : text) : nat :=
  length (filter (Ascii.eqb c) s).

(** The tags the rows of a section open: those of the row that says
    there is no finding, or those of one row per finding. *)
Definition row_tags (rows : list finding) : nat :=
  match rows with
  | [] => 4
  | _ :: _ => 8 * length rows
  end.

(* ================================================================= *)
(** ** Loading the rules *)

(** A key of a loaded mapping: a string, or a value of another type (a
    number, a boolean, ...), which equals no string. *)
Inductive pykey : Type :=
| KeyStr : text -> pykey
| KeyOther : text -> pykey.

(** A value loaded by [yaml.safe_load]: [None], a scalar (by its text), a
    sequence, or a mapping. *)
#[warnings="-register-all"]
Inductive yaml : Type :=
| YNone : yaml
| YScalar : text -> yaml
| YSeq : list yaml -> yaml
| YMap : list (pykey * yaml) -> yaml.

(** A loaded mapping, as a list of entries; a lookup takes the first
    entry with the key (a [dict] holds each key once). *)
Definition pydict : Type := list (pykey * yaml).

(** [d[k]] for a string [k], [None] when [k not in d]. *)
Fixpoint dict_get (k : text) (d : pydict) : option yaml :=
  match d with
  | [] => None
  | (KeyStr s, v) :: d' =>
      if text_eq_dec s k then Some v else dict_get k d'
  | (KeyOther _, _) :: d' => dict_get k d'
  end.

(** What the [try] block of [load_rules] meets: one of the exceptions it
    handles, or the loaded document. *)
Inductive load_event : Type :=
| FileNotFound : load_event
| PermissionDenied : load_event
| YamlError : text -> load_event
| OtherError : text -> load_event
| Loaded : yaml -> load_event.

(** A function that returns, or prints a message on the standard error
    and leaves through [sys.exit]. *)
Inductive outcome (A : Type) : Type :=
| Return : A -> outcome A
| Exit : nat -> text -> outcome A.

Arguments Return {A} _.
Arguments Exit {A} _ _.

Definition required_keys : list text :=
  [T "sensitive_patterns"; T "failure_keywords"; T "noisy_log_levels";
   T "required_severity_on_failure"].

(** [k not in rules or rules[k] is None] *)
Definition key_missing (d : pydict) (k : text) : bool :=
  match dict_get k d with
  | None => true
  | Some YNone => true
  | Some _ => false
  end.

Definition load_rules (path : text) (ev : load_event) : outcome pydict :=
  match ev with
  | FileNotFound => Exit 1 (T "Rules file not found: " ++ path)
  | PermissionDenied =>
      Exit 1 (T "Permission denied while reading rules file: " ++ path)
  | YamlError e =>
      Exit 1 (T "Failed to parse YAML rules file '" ++ path ++ T "': " ++ e)
  | OtherError e =>
      Exit 1 (T "Unexpected error while loading rules from '" ++ path
              ++ T "': " ++ e)
  | Loaded (YMap d) =>
      match filter (key_missing d) required_keys with
      | [] => Return d
      | missing =>
          Exit 1 (T "Error: rules.yml is missing required keys: "
                  ++ join (T ", ") missing)
      end
  | Loaded _ =>
      Exit 1 (T "Error: rules.yml is empty or not a valid YAML mapping.")
  end.

(* ================================================================= *)
(** * Properties *)

(** ** Texts *)

Lemma last_char_app_single (s : text) (c : ascii) :
  last_char (s ++ [c]) = Some c.
Proof. unfold last_char. rewrite rev_app_distr. reflexivity. Qed.

Lemma last_char_cons (c : ascii) (s : text) :
  last_char (c :: s) = last_or (Some c) s.
Proof.
  unfold last_or, last_char. simpl.
  destruct (rev s) as [|x l]; reflexivity.
Qed.

Lemma last_or_nil (p : option ascii) : last_or p [] = p.
Proof. reflexivity. Qed.

Lemma last_or_cons (p : option ascii) (c : ascii) (u : text) :
  last_or p (c :: u) = last_or (Some c) u.
Proof.
  unfold last_or. rewrite last_char_cons. unfold last_or.
  destruct (last_char u); reflexivity.
Qed.

Lemma last_or_app (p : option ascii) (u1 u2 : text) :
  last_or (last_or p u1) u2 = last_or p (u1 ++ u2).
Proof.
  revert p. induction u1 as [|c u1 IH]; intros p; simpl.
  - reflexivity.
  - rewrite !last_or_cons. apply IH.
Qed.

Lemma last_or_none (u : text) : last_or None u = last_char u.
Proof. unfold last_or. destruct (last_char u); reflexivity. Qed.

Lemma last_char_app (a u : text) :
  last_char (a ++ u) = last_or (last_char a) u.
Proof. rewrite <- !last_or_none. symmetry. apply last_or_app. Qed.

Lemma flat_map_nil_all (A B : Type) (f : A -> list B) (l : list A) :
  (forall x, In x l -> f x = []) -> flat_map f l = [].
Proof.
  induction l as [|x l IH]; intros H; simpl.
  - reflexivity.
  - rewrite (H x (or_introl eq_refl)), IH; auto.
    intros y Hy. apply H. right. exact Hy.
Qed.

(** ** The matcher against the matching relation *)

Lemma star_ends_fuel (body : option ascii -> text -> list pos) :
  forall n m prev s,
    length s < n -> length s < m ->
    star_ends body n prev s = star_ends body m prev s.
Proof.
  induction n as [|n IH]; intros m prev s Hn Hm; [lia|].
  destruct m as [|m]; [lia|].
  simpl. f_equal. apply flat_map_ext. intros q.
  destruct (Nat.ltb_spec (length (snd q)) (length s)); [|reflexivity].
  apply IH; lia.
Qed.

Lemma star_ends_sound (r : re)
      (IHr : forall prev s q b, In (q, b) (ends r prev s) ->
             exists u, s = u ++ b /\ q = last_or prev u /\ matches r prev u b) :
  forall n prev s q b,
    In (q, b) (star_ends (ends r) n prev s) ->
    exists u, s = u ++ b /\ q = last_or prev u /\ matches (Star r) prev u b.
Proof.
  induction n as [|n IH]; intros prev s q b Hin; simpl in Hin.
  - destruct Hin as [Heq|[]]. inversion Heq; subst.
    exists []. repeat split. constructor.
  - apply in_app_or in Hin. destruct Hin as [Hin|[Heq|[]]].
    + apply in_flat_map in Hin. destruct Hin as [[q1 s1] [H1 H2]].
      simpl in H2.
      destruct (IHr _ _ _ _ H1) as [u1 [Hs [Hq1 Hm1]]].
      destruct (Nat.ltb_spec (length s1) (length s)) as [Hlt|Hge].
      * destruct (IH _ _ _ _ H2) as [u2 [Hs1 [Hq Hm2]]].
        subst s s1 q q1. exists (u1 ++ u2). rewrite <- app_assoc.
        split; [reflexivity|]. split; [apply last_or_app|].
        apply M_StarS; auto.
        intros ->. simpl in Hlt. lia.
      * destruct H2 as [Heq|[]]. inversion Heq; subst q1 s1.
        assert (u1 = []).
        { destruct u1; [reflexivity|]. subst s. rewrite length_app in Hge.
          simpl in Hge. lia. }
        subst u1. simpl in Hs. subst s q.
        exists []. repeat split. constructor.
    + inversion Heq; subst. exists []. repeat split. constructor.
Qed.

Lemma ends_sound :
  forall r prev s q b,
    In (q, b) (ends r prev s) ->
    exists u, s = u ++ b /\ q = last_or prev u /\ matches r prev u b.
Proof.
  induction r as [|c|f|r1 IH1 r2 IH2|r1 IH1 r2 IH2|r IH| | |];
    intros prev s q b Hin; simpl in Hin.
  - destruct Hin as [Heq|[]]. inversion Heq; subst.
    exists []. repeat split. constructor.
  - destruct s as [|x s']; [contradiction|].
    destruct (Ascii.eqb_spec x c) as [->|]; [|contradiction].
    destruct Hin as [Heq|[]]. inversion Heq; subst.
    exists [c]. repeat split. constructor.
  - destruct s as [|x s']; [contradiction|].
    destruct (f x) eqn:Hf; [|contradiction].
    destruct Hin as [Heq|[]]. inversion Heq; subst.
    exists [x]. repeat split. constructor. exact Hf.
  - apply in_flat_map in Hin. destruct Hin as [[q1 s1] [H1 H2]].
    simpl in H2.
    destruct (IH1 _ _ _ _ H1) as [u1 [Hs [Hq1 Hm1]]].
    destruct (IH2 _ _ _ _ H2) as [u2 [Hs1 [Hq Hm2]]].
    subst s s1 q q1. exists (u1 ++ u2). rewrite <- app_assoc.
    split; [reflexivity|]. split; [apply last_or_app|].
    constructor; assumption.
  - apply in_app_or in Hin. destruct Hin as [Hin|Hin].
    + destruct (IH1 _ _ _ _ Hin) as [u [Hs [Hq Hm]]].
      exists u. repeat split; auto. apply M_AltL; assumption.
    + destruct (IH2 _ _ _ _ Hin) as [u [Hs [Hq Hm]]].
      exists u. repeat split; auto. apply M_AltR; assumption.
  - apply (star_ends_sound r IH (S (length s)) prev s q b).
    exact Hin.
  - destruct prev; simpl in Hin; [contradiction|].
    destruct Hin as [Heq|[]]. inversion Heq; subst.
    exists []. repeat split. constructor.
  - destruct (at_end s) eqn:He; [|contradiction].
    destruct Hin as [Heq|[]]. inversion Heq; subst.
    exists []. repeat split. constructor. exact He.
  - destruct (at_boundary prev s) eqn:He; [|contradiction].
    destruct Hin as [Heq|[]]. inversion Heq; subst.
    exists []. repeat split. constructor. exact He.
Qed.

Lemma ends_complete :
  forall r prev u b,
    matches r prev u b -> In (last_or prev u, b) (ends r prev (u ++ b)).
Proof.
  intros r prev u b H.
  induction H as [prev b|c prev b|f c prev b Hf
                 |r1 r2 prev u1 u2 b H1 IH1 H2 IH2
                 |r1 r2 prev u b H IH|r1 r2 prev u b H IH
                 |r prev b|r prev u1 u2 b Hne H1 IH1 H2 IH2
                 |b|prev b He|prev b He]; cbn [ends].
  - left. reflexivity.
  - simpl. rewrite Ascii.eqb_refl. left. reflexivity.
  - simpl. rewrite Hf. left. reflexivity.
  - apply in_flat_map. exists (last_or prev u1, u2 ++ b). split.
    + rewrite <- app_assoc. exact IH1.
    + simpl. rewrite <- last_or_app. exact IH2.
  - apply in_or_app. left. exact IH.
  - apply in_or_app. right. exact IH.
  - cbn [star_ends]. apply in_or_app. right. left. reflexivity.
  - cbn [star_ends]. apply in_or_app. left.
    apply in_flat_map. exists (last_or prev u1, u2 ++ b). split.
    + rewrite <- app_assoc. exact IH1.
    + cbn [fst snd].
      assert (Hlt : length (u2 ++ b) < length ((u1 ++ u2) ++ b)).
      { destruct u1; [congruence|]. rewrite !length_app. simpl. lia. }
      destruct (Nat.ltb_spec (length (u2 ++ b))
                             (length ((u1 ++ u2) ++ b))) as [_|Hge]; [|lia].
      rewrite <- last_or_app. cbn [ends] in IH2.
      rewrite (star_ends_fuel (ends r) (length ((u1 ++ u2) ++ b))
                              (S (length (u2 ++ b)))); auto.
  - left. reflexivity.
  - simpl. rewrite He. left. reflexivity.
  - simpl. rewrite He. left. reflexivity.
Qed.

Lemma ends_spec (r : re) (prev : option ascii) (s : text) (q : option ascii)
      (b : text) :
  In (q, b) (ends r prev s) <->
  exists u, s = u ++ b /\ q = last_or prev u /\ matches r prev u b.
Proof.
  split.
  - apply ends_sound.
  - intros [u [-> [-> H]]]. apply ends_complete. exact H.
Qed.


Ltac minv H := inversion H; subst; clear H.

Lemma ends_nonempty (r : re) (prev : option ascii) (s : text) :
  ends r prev s <> [] <->
  exists u b, s = u ++ b /\ matches r prev u b.
Proof.
  split.
  - destruct (ends r prev s) as [|[q b] l] eqn:E; [congruence|]. intros _.
    assert (Hin : In (q, b) (ends r prev s)) by (rewrite E; left; reflexivity).
    apply ends_sound in Hin. destruct Hin as [u [Hs [_ Hm]]].
    exists u, b. split; assumption.
  - intros [u [b [-> Hm]]] E. apply ends_complete in Hm.
    rewrite E in Hm. contradiction.
Qed.

Lemma re_match_spec (r : re) (s : text) :
  re_match r s = true <-> exists u b, s = u ++ b /\ matches r None u b.
Proof.
  rewrite <- ends_nonempty. unfold re_match.
  destruct (ends r None s); split; intros H; congruence.
Qed.

Lemma search_at_spec (r : re) :
  forall s prev,
    search_at r prev s = true <->
    exists a u b, s = a ++ u ++ b /\ matches r (last_or prev a) u b.
Proof.
  induction s as [|c s IH]; intros prev; simpl.
  - destruct (ends r prev []) as [|q l] eqn:E.
    + split; [discriminate|]. intros [a [u [b [Hs Hm]]]].
      destruct a; [|discriminate]. simpl in Hs.
      assert (Hne : ends r prev [] <> []).
      { apply ends_nonempty. exists u, b. split; assumption. }
      congruence.
    + split; [|reflexivity]. intros _.
      assert (Hne : ends r prev [] <> []) by congruence.
      apply ends_nonempty in Hne. destruct Hne as [u [b [Hs Hm]]].
      exists [], u, b. split; assumption.
  - destruct (ends r prev (c :: s)) as [|q l] eqn:E.
    + rewrite IH. split.
      * intros [a [u [b [Hs Hm]]]]. exists (c :: a), u, b.
        rewrite last_or_cons. split; [simpl; congruence|assumption].
      * intros [a [u [b [Hs Hm]]]]. destruct a as [|x a].
        -- assert (Hne : ends r prev (c :: s) <> []).
           { apply ends_nonempty. exists u, b. split; assumption. }
           congruence.
        -- simpl in Hs. inversion Hs; subst. rewrite last_or_cons in Hm.
           exists a, u, b. split; [reflexivity|assumption].
    + split; [|reflexivity]. intros _.
      assert (Hne : ends r prev (c :: s) <> []) by congruence.
      apply ends_nonempty in Hne. destruct Hne as [u [b [Hs Hm]]].
      exists [], u, b. split; assumption.
Qed.

Lemma re_search_spec (r : re) (s : text) :
  re_search r s = true <-> has_match r s.
Proof.
  unfold re_search, has_match. rewrite search_at_spec.
  split; intros [a [u [b [Hs Hm]]]]; exists a, u, b;
    rewrite last_or_none in *; split; assumption.
Qed.

Lemma matches_Lit (t : text) :
  forall prev u b, matches (Lit t) prev u b <-> u = t.
Proof.
  induction t as [|c t IH]; intros prev u b; simpl.
  - split; [intros H; minv H; reflexivity|intros ->; constructor].
  - split.
    + intros H. minv H.
      match goal with
      | [ H1 : matches (Chr c) _ _ _, H2 : matches (Lit t) _ _ _ |- _ ] =>
          minv H1; apply IH in H2; subst; reflexivity
      end.
    + intros ->. change (c :: t) with ([c] ++ t). apply M_Cat.
      * constructor.
      * apply IH. reflexivity.
Qed.

(** ** Level detection *)

Lemma word_after_app (tok b : text) :
  word_after tok = true -> word_after (tok ++ b) = true.
Proof. destruct tok; simpl; [discriminate|auto]. Qed.

Lemma word_before_last_or (p : option ascii) (tok : text) :
  word_before (last_char tok) = true -> last_or p tok = last_char tok.
Proof.
  unfold last_or. destruct (last_char tok); simpl; [reflexivity|discriminate].
Qed.

Lemma level_re_matches (tok : text) (p : option ascii) (u b : text) :
  word_token tok ->
  (matches (level_re tok) p u b <->
   u = tok /\ word_before p = false /\ word_after b = false).
Proof.
  intros [Hfirst Hlast]. unfold level_re. split.
  - intros H. minv H.
    repeat match goal with
           | [ H : matches WordB _ _ _ |- _ ] => minv H
           | [ H : matches (Cat _ _) _ _ _ |- _ ] => minv H
           | [ H : matches (Lit _) _ _ _ |- _ ] => apply matches_Lit in H; subst
           end.
    simpl in *. rewrite app_nil_r in *.
    unfold at_boundary in *.
    rewrite last_or_nil, word_before_last_or in * by assumption.
    rewrite (word_after_app tok b Hfirst) in *. rewrite Hlast in *.
    repeat split.
    + destruct (word_before p); [discriminate|reflexivity].
    + destruct (word_after b); [discriminate|reflexivity].
  - intros [-> [Hp Hb]].
    change tok with ([] ++ tok). apply M_Cat.
    + constructor. unfold at_boundary. simpl.
      rewrite Hp, (word_after_app tok b Hfirst). reflexivity.
    + rewrite last_or_nil. rewrite <- (app_nil_r tok) at 2. apply M_Cat.
      * apply matches_Lit. reflexivity.
      * constructor. unfold at_boundary.
        rewrite word_before_last_or by assumption.
        rewrite Hlast, Hb. reflexivity.
Qed.

Lemma level_re_search (tok s : text) :
  word_token tok ->
  (re_search (level_re tok) s = true <-> whole_word tok s).
Proof.
  intros Htok. rewrite re_search_spec. unfold has_match, whole_word. split.
  - intros [a [u [b [Hs Hm]]]].
    apply (level_re_matches _ _ _ _ Htok) in Hm. destruct Hm as [-> [Hp Hb]].
    exists a, b. auto.
  - intros [pre [post [Hs [Hp Hb]]]]. exists pre, tok, post.
    split; [assumption|]. apply (level_re_matches _ _ _ _ Htok). auto.
Qed.

Lemma level_names_word_tokens :
  forall lvl, In lvl level_names -> word_token lvl.
Proof.
  intros lvl H. simpl in H.
  repeat (destruct H as [<-|H]; [split; reflexivity|]). contradiction.
Qed.

Lemma detect_level_from_first (lvls : list text) (s : text) :
  (forall lvl, In lvl lvls -> word_token lvl) ->
  forall pre lvl post,
    lvls = pre ++ lvl :: post ->
    whole_word lvl s ->
    (forall l', In l' pre -> ~ whole_word l' s) ->
    detect_level_from lvls s = lvl.
Proof.
  intros Hok pre. revert lvls Hok.
  induction pre as [|x pre IH]; intros lvls Hok lvl post -> Hw Hno; simpl.
  - apply level_re_search in Hw; [|apply Hok; left; reflexivity].
    rewrite Hw. reflexivity.
  - destruct (re_search (level_re x) s) eqn:E.
    + apply level_re_search in E; [|apply Hok; left; reflexivity].
      exfalso. apply (Hno x); [left; reflexivity|assumption].
    + apply (IH (pre ++ lvl :: post)) with (post := post); auto.
      * intros l Hl. apply Hok. right. exact Hl.
      * intros l Hl. apply Hno. right. exact Hl.
Qed.

Lemma detect_level_from_none (lvls : list text) (s : text) :
  (forall lvl, In lvl lvls -> word_token lvl) ->
  (forall lvl, In lvl lvls -> ~ whole_word lvl s) ->
  detect_level_from lvls s = UNKNOWN.
Proof.
  induction lvls as [|x lvls IH]; intros Hok Hno; simpl.
  - reflexivity.
  - destruct (re_search (level_re x) s) eqn:E.
    + apply level_re_search in E; [|apply Hok; left; reflexivity].
      exfalso. apply (Hno x); [left; reflexivity|assumption].
    + apply IH; intros l Hl; [apply Hok|apply Hno]; right; exact Hl.
Qed.

Lemma whole_word_infix (tok s : text) : whole_word tok s -> infix tok s.
Proof. intros [pre [post [Hs _]]]. exists pre, post. exact Hs. Qed.

(** ** Substrings and letter case *)

Lemma prefixb_spec (k s : text) :
  prefixb k s = true <-> exists post, s = k ++ post.
Proof.
  revert s. induction k as [|a k IH]; intros s; simpl.
  - split; [intros _; exists s; reflexivity|reflexivity].
  - destruct s as [|b s].
    + split; [discriminate|intros [post H]; discriminate].
    + rewrite andb_true_iff, IH. split.
      * intros [Hab [post ->]]. apply Ascii.eqb_eq in Hab. subst.
        exists post. reflexivity.
      * intros [post H]. inversion H; subst. split.
        -- apply Ascii.eqb_refl.
        -- exists post. reflexivity.
Qed.

Lemma str_in_spec (k s : text) : str_in k s = true <-> infix k s.
Proof.
  unfold infix. induction s as [|c s IH]; simpl.
  - rewrite orb_false_r, prefixb_spec. split.
    + intros [post H]. exists [], post. exact H.
    + intros [pre [post H]]. destruct pre; [|discriminate].
      exists post. exact H.
  - rewrite orb_true_iff, prefixb_spec, IH. split.
    + intros [[post H]|[pre [post H]]].
      * exists [], post. exact H.
      * exists (c :: pre), post. simpl. congruence.
    + intros [pre [post H]]. destruct pre as [|x pre].
      * left. exists post. exact H.
      * right. simpl in H. inversion H; subst. exists pre, post. reflexivity.
Qed.

Lemma lower_not_upper (c : ascii) : is_upper (lower c) = false.
Proof.
  destruct c as [b0 b1 b2 b3 b4 b5 b6 b7].
  destruct b0, b1, b2, b3, b4, b5, b6, b7; reflexivity.
Qed.

Lemma lower_idem (c : ascii) : lower (lower c) = lower c.
Proof.
  unfold lower at 1. rewrite lower_not_upper. reflexivity.
Qed.




(** ** The scan loop *)

Lemma sensitive_loop_spec (rs : rules) (res : list re) (ln : nat) (l : text)
      (st : result) :
  sensitive_loop rs res ln l st =
  if existsb (fun r => re_search r l) res
  then add_sensitive (sensitive_finding rs ln l) st else st.
Proof.
  induction res as [|r res IH]; simpl.
  - reflexivity.
  - destruct (re_search r l); simpl; [reflexivity|exact IH].
Qed.

Ltac split_line_cases :=
  unfold analyze_line, noisy_of, sensitive_of, severity_of,
         any_sensitive, any_failure_keyword;
  intros; cbv zeta; rewrite sensitive_loop_spec;
  match goal with
  | [ rs : rules, raw : text |- _ ] =>
      destruct (starts_with_date_and_timestamp (rstrip raw));
      destruct (mem (detect_level (rstrip raw)) (noisy_log_levels rs));
      destruct (existsb (fun r => re_search r (rstrip raw)) (sensitive_res rs));
      destruct (existsb (fun k => str_in k (str_lower (rstrip raw)))
                        (failure_keywords rs));
      destruct (mem (detect_level (rstrip raw))
                    (required_severity_on_failure rs))
  end;
  simpl; rewrite ?app_nil_r; reflexivity.

Lemma analyze_line_noisy (rs : rules) (st : result) (ln : nat) (raw : text) :
  noisy_logs (analyze_line rs st ln raw) = noisy_logs st ++ noisy_of rs ln raw.
Proof. split_line_cases. Qed.

Lemma analyze_line_sensitive (rs : rules) (st : result) (ln : nat)
      (raw : text) :
  sensitive_logs (analyze_line rs st ln raw)
  = sensitive_logs st ++ sensitive_of rs ln raw.
Proof. split_line_cases. Qed.

Lemma analyze_line_severity (rs : rules) (st : result) (ln : nat)
      (raw : text) :
  severity_violations (analyze_line rs st ln raw)
  = severity_violations st ++ severity_of rs ln raw.
Proof. split_line_cases. Qed.

Section ScanList.

(** One of the three result lists, and what a line adds to it. *)
Variable rs : rules.
Variable proj : result -> list finding.
Variable contrib : nat -> text -> list finding.

Hypothesis step_appends :
  forall st ln raw,
    proj (analyze_line rs st ln raw) = proj st ++ contrib ln raw.
Hypothesis contrib_line :
  forall ln raw f, In f (contrib ln raw) -> line f = ln.

Lemma findings_on_contrib (k ln : nat) (raw : text) :
  findings_on k (contrib ln raw)
  = if ln =? k then contrib ln raw else [].
Proof.
  unfold findings_on.
  assert (H := contrib_line ln raw).
  induction (contrib ln raw) as [|f fs IH]; simpl.
  - destruct (ln =? k); reflexivity.
  - rewrite (H f (or_introl eq_refl)).
    rewrite IH by (intros g Hg; apply H; right; exact Hg).
    destruct (ln =? k); reflexivity.
Qed.

Lemma scan_from_findings_on (k : nat) :
  forall lines ln st,
    findings_on k (proj (scan_from rs ln lines st))
    = findings_on k (proj st)
      ++ (if ln <=? k
          then match nth_error lines (k - ln) with
               | Some raw => contrib k raw
               | None => []
               end
          else []).
Proof.
  induction lines as [|raw lines IH]; intros ln st; simpl.
  - destruct (ln <=? k); [|rewrite app_nil_r; reflexivity].
    destruct (k - ln); cbn [nth_error]; rewrite app_nil_r; reflexivity.
  - rewrite IH, step_appends. unfold findings_on at 1.
    rewrite filter_app. fold (findings_on k (proj st)).
    fold (findings_on k (contrib ln raw)).
    rewrite findings_on_contrib, <- app_assoc. f_equal.
    destruct (Nat.eqb_spec ln k) as [->|Hne].
    + rewrite Nat.sub_diag, Nat.leb_refl. cbn [nth_error].
      destruct (Nat.leb_spec (S k) k); [lia|].
      rewrite app_nil_r. reflexivity.
    + cbn [app]. destruct (Nat.leb_spec (S ln) k), (Nat.leb_spec ln k);
        try lia; [|reflexivity].
      replace (k - ln) with (S (k - S ln)) by lia. reflexivity.
Qed.

Lemma analyze_findings_on (lines : list text) (n : nat) :
  findings_on (S n) (proj empty_result) = [] ->
  findings_on (S n) (proj (analyze rs lines))
  = match nth_error lines n with
    | Some raw => contrib (S n) raw
    | None => []
    end.
Proof.
  intros He. unfold analyze. rewrite scan_from_findings_on, He. simpl.
  rewrite Nat.sub_0_r. reflexivity.
Qed.

Lemma In_findings_on (k : nat) (fs : list finding) (f : finding) :
  In f (findings_on k fs) <-> In f fs /\ line f = k.
Proof.
  unfold findings_on. rewrite filter_In, Nat.eqb_eq. reflexivity.
Qed.

End ScanList.

Lemma noisy_of_line (rs : rules) (ln : nat) (raw : text) (f : finding) :
  In f (noisy_of rs ln raw) -> line f = ln.
Proof.
  unfold noisy_of. cbv zeta.
  destruct (_ && _); simpl; [intros [<-|[]]; reflexivity|contradiction].
Qed.

Lemma sensitive_of_line (rs : rules) (ln : nat) (raw : text) (f : finding) :
  In f (sensitive_of rs ln raw) -> line f = ln.
Proof.
  unfold sensitive_of. cbv zeta.
  destruct (_ && _); simpl; [intros [<-|[]]; reflexivity|contradiction].
Qed.

Lemma severity_of_line (rs : rules) (ln : nat) (raw : text) (f : finding) :
  In f (severity_of rs ln raw) -> line f = ln.
Proof.
  unfold severity_of. cbv zeta.
  destruct (_ && _ && _); simpl; [intros [<-|[]]; reflexivity|contradiction].
Qed.

Lemma analyze_noisy_on (rs : rules) (lines : list text) (n : nat) :
  findings_on (S n) (noisy_logs (analyze rs lines))
  = match nth_error lines n with
    | Some raw => noisy_of rs (S n) raw
    | None => []
    end.
Proof.
  apply (analyze_findings_on rs noisy_logs (noisy_of rs)).
  - apply analyze_line_noisy.
  - apply noisy_of_line.
  - reflexivity.
Qed.

Lemma analyze_sensitive_on (rs : rules) (lines : list text) (n : nat) :
  findings_on (S n) (sensitive_logs (analyze rs lines))
  = match nth_error lines n with
    | Some raw => sensitive_of rs (S n) raw
    | None => []
    end.
Proof.
  apply (analyze_findings_on rs sensitive_logs (sensitive_of rs)).
  - apply analyze_line_sensitive.
  - apply sensitive_of_line.
  - reflexivity.
Qed.

Lemma analyze_severity_on (rs : rules) (lines : list text) (n : nat) :
  findings_on (S n) (severity_violations (analyze rs lines))
  = match nth_error lines n with
    | Some raw => severity_of rs (S n) raw
    | None => []
    end.
Proof.
  apply (analyze_findings_on rs severity_violations (severity_of rs)).
  - apply analyze_line_severity.
  - apply severity_of_line.
  - reflexivity.
Qed.

(** ** The timestamp gate *)

Lemma matches_Cat (r1 r2 : re) (p : option ascii) (u b : text) :
  matches (Cat r1 r2) p u b <->
  exists u1 u2,
    u = u1 ++ u2 /\ matches r1 p u1 (u2 ++ b) /\
    matches r2 (last_or p u1) u2 b.
Proof.
  split.
  - intros H. minv H. eauto.
  - intros [u1 [u2 [-> [H1 H2]]]]. apply M_Cat; assumption.
Qed.

Lemma matches_Alt (r1 r2 : re) (p : option ascii) (u b : text) :
  matches (Alt r1 r2) p u b <-> matches r1 p u b \/ matches r2 p u b.
Proof.
  split.
  - intros H. minv H; auto.
  - intros [H|H]; [apply M_AltL|apply M_AltR]; assumption.
Qed.

Lemma matches_Eps (p : option ascii) (u b : text) :
  matches Eps p u b <-> u = [].
Proof. split; [intros H; minv H; reflexivity|intros ->; constructor]. Qed.

Lemma matches_Chr (c : ascii) (p : option ascii) (u b : text) :
  matches (Chr c) p u b <-> u = [c].
Proof. split; [intros H; minv H; reflexivity|intros ->; constructor]. Qed.

Lemma matches_Cls (f : ascii -> bool) (p : option ascii) (u b : text) :
  matches (Cls f) p u b <-> exists c, u = [c] /\ f c = true.
Proof.
  split.
  - intros H. minv H. eauto.
  - intros [c [-> Hf]]. constructor. exact Hf.
Qed.

Lemma matches_Opt (r : re) (p : option ascii) (u b : text) :
  matches (Opt r) p u b <-> matches r p u b \/ u = [].
Proof. unfold Opt. rewrite matches_Alt, matches_Eps. reflexivity. Qed.

Lemma matches_Rep_Cls (f : ascii -> bool) (n : nat) :
  forall p u b,
    matches (Rep n (Cls f)) p u b <-> length u = n /\ forallb f u = true.
Proof.
  induction n as [|n IH]; intros p u b; simpl.
  - rewrite matches_Eps. split.
    + intros ->. auto.
    + intros [H _]. destruct u; [reflexivity|discriminate].
  - rewrite matches_Cat. split.
    + intros [u1 [u2 [-> [H1 H2]]]]. apply matches_Cls in H1.
      destruct H1 as [c [-> Hf]]. apply IH in H2. destruct H2 as [Hl Hall].
      simpl. rewrite Hf, Hl, Hall. auto.
    + intros [Hl Hall]. destruct u as [|c u]; [discriminate|].
      simpl in Hl, Hall. apply andb_true_iff in Hall. destruct Hall as [Hf Hall].
      exists [c], u. split; [reflexivity|]. split.
      * apply matches_Cls. eauto.
      * apply IH. split; [lia|assumption].
Qed.

Lemma matches_Star_Cls_fwd (f : ascii -> bool) (r : re) (p : option ascii)
      (u b : text) :
  matches r p u b -> r = Star (Cls f) -> forallb f u = true.
Proof.
  intros H. induction H; intros E; try discriminate.
  - reflexivity.
  - inversion E; subst. rewrite forallb_app.
    match goal with
    | [ H : matches (Cls f) _ _ _ |- _ ] =>
        apply matches_Cls in H; destruct H as [c [-> Hf]]
    end.
    simpl. rewrite Hf. simpl. auto.
Qed.

Lemma matches_Star_Cls (f : ascii -> bool) :
  forall u p b, matches (Star (Cls f)) p u b <-> forallb f u = true.
Proof.
  intros u p b. split.
  - intros H. eapply matches_Star_Cls_fwd; eauto.
  - revert p. induction u as [|c u IH]; intros p Hall.
    + constructor.
    + simpl in Hall. apply andb_true_iff in Hall. destruct Hall as [Hf Hall].
      change (c :: u) with ([c] ++ u). apply M_StarS.
      * discriminate.
      * constructor. exact Hf.
      * apply IH. exact Hall.
Qed.

Lemma matches_Plus_Cls (f : ascii -> bool) (u : text) (p : option ascii)
      (b : text) :
  matches (Plus (Cls f)) p u b <-> u <> [] /\ forallb f u = true.
Proof.
  unfold Plus. rewrite matches_Cat. split.
  - intros [u1 [u2 [-> [H1 H2]]]]. apply matches_Cls in H1.
    destruct H1 as [c [-> Hf]]. apply matches_Star_Cls in H2.
    split; [discriminate|]. simpl. rewrite Hf, H2. reflexivity.
  - intros [Hne Hall]. destruct u as [|c u]; [congruence|].
    simpl in Hall. apply andb_true_iff in Hall. destruct Hall as [Hf Hall].
    exists [c], u. split; [reflexivity|]. split.
    + apply matches_Cls. eauto.
    + apply matches_Star_Cls. exact Hall.
Qed.

Lemma matches_Alts_Lit (names : list text) (p : option ascii) (u b : text) :
  matches (Alts (map Lit names)) p u b <-> In u names.
Proof.
  induction names as [|x names IH].
  - simpl. rewrite matches_Cls. split; [intros [c [_ H]]; discriminate|tauto].
  - destruct names as [|y names].
    + simpl. rewrite matches_Lit. split; [auto|intros [H|[]]; auto].
    + change (Alts (map Lit (x :: y :: names)))
        with (Alt (Lit x) (Alts (map Lit (y :: names)))).
      rewrite matches_Alt, matches_Lit, IH. simpl. split.
      * intros [H|H]; auto.
      * intros [H|H]; auto.
Qed.

Ltac mdecomp :=
  repeat match goal with
         | [ H : matches (Plus (Cls _)) _ _ _ |- _ ] =>
             apply matches_Plus_Cls in H
         | [ H : matches (Rep _ (Cls _)) _ _ _ |- _ ] =>
             apply matches_Rep_Cls in H
         | [ H : matches (Opt _) _ _ _ |- _ ] =>
             apply matches_Opt in H
         | [ H : matches (Cat _ _) _ _ _ |- _ ] =>
             apply matches_Cat in H; destruct H as [? [? [? [? ?]]]]
         | [ H : matches (Chr _) _ _ _ |- _ ] =>
             apply matches_Chr in H
         end; subst.

Lemma matches_hms (p : option ascii) (u b : text) :
  matches hms p u b <-> is_hms u.
Proof.
  unfold hms, is_hms, digits, digit. split.
  - intros H. mdecomp. eexists _, _, _. split; [reflexivity|]. auto.
  - intros [h [m [s [-> [Hh [Hm Hs]]]]]].
    apply M_Cat; [apply matches_Rep_Cls; exact Hh|].
    apply M_Cat; [apply matches_Chr; reflexivity|].
    apply M_Cat; [apply matches_Rep_Cls; exact Hm|].
    apply M_Cat; [apply matches_Chr; reflexivity|].
    apply matches_Rep_Cls; exact Hs.
Qed.

Lemma matches_ymd (p : option ascii) (u b : text) :
  matches ymd p u b <-> is_ymd u.
Proof.
  unfold ymd, is_ymd, digits, digit. split.
  - intros H. mdecomp. eexists _, _, _. split; [reflexivity|]. auto.
  - intros [h [m [s [-> [Hh [Hm Hs]]]]]].
    apply M_Cat; [apply matches_Rep_Cls; exact Hh|].
    apply M_Cat; [apply matches_Chr; reflexivity|].
    apply M_Cat; [apply matches_Rep_Cls; exact Hm|].
    apply M_Cat; [apply matches_Chr; reflexivity|].
    apply matches_Rep_Cls; exact Hs.
Qed.

Lemma matches_frac (p : option ascii) (u b : text) :
  matches frac p u b <-> is_frac u.
Proof.
  unfold frac, is_frac, digit. split.
  - intros H. mdecomp. destruct H as [H|H]; [|left; exact H].
    mdecomp. right. eexists. split; [reflexivity|].
    match goal with [ H : _ /\ _ |- _ ] => exact H end.
  - intros [->|[ds [-> [Hne Hall]]]].
    + apply matches_Opt. right. reflexivity.
    + apply matches_Opt. left.
      apply M_Cat; [apply matches_Chr; reflexivity|].
      apply matches_Plus_Cls. auto.
Qed.

Lemma matches_alt_time (p : option ascii) (u b : text) :
  matches alt_time p u b <-> shape_time u.
Proof.
  unfold alt_time, shape_time. rewrite matches_Cat. split.
  - intros [u1 [u2 [-> [H1 H2]]]].
    apply matches_hms in H1. apply matches_frac in H2. eauto.
  - intros [x [f [-> [H1 H2]]]]. exists x, f.
    split; [reflexivity|]. split; [apply matches_hms|apply matches_frac];
      assumption.
Qed.

Lemma matches_alt_date_time (sep : ascii -> bool) (p : option ascii)
      (u b : text) :
  matches (alt_date_time_with sep) p u b <-> shape_date_time sep u.
Proof.
  unfold alt_date_time_with, shape_date_time, seps. split.
  - intros H. apply matches_Cat in H. destruct H as [d [u2 [-> [Hd H]]]].
    apply matches_Cat in H. destruct H as [sp [tm [-> [Hsp H]]]].
    apply matches_ymd in Hd. apply matches_Plus_Cls in Hsp.
    apply (matches_alt_time _ tm b) in H.
    exists d, sp, tm. auto.
  - intros [d [sp [tm [-> [Hd [Hsp Htm]]]]]].
    apply M_Cat; [apply matches_ymd; exact Hd|].
    apply M_Cat; [apply matches_Plus_Cls; exact Hsp|].
    apply (matches_alt_time _ tm b). exact Htm.
Qed.

Lemma matches_day (p : option ascii) (u b : text) :
  matches (Cat digit (Opt digit)) p u b <-> digits 1 u \/ digits 2 u.
Proof.
  unfold digit, digits. rewrite matches_Cat. split.
  - intros [u1 [u2 [-> [H1 H2]]]]. apply matches_Cls in H1.
    destruct H1 as [c [-> Hc]]. apply matches_Opt in H2.
    destruct H2 as [H2| ->].
    + apply matches_Cls in H2. destruct H2 as [c' [-> Hc']].
      right. simpl. rewrite Hc, Hc'. auto.
    + left. simpl. rewrite Hc. auto.
  - intros [[Hl Hall]|[Hl Hall]].
    + destruct u as [|c [|c' u]]; try discriminate.
      simpl in Hall. rewrite andb_true_r in Hall.
      exists [c], []. split; [reflexivity|]. split.
      * apply matches_Cls. eauto.
      * apply matches_Opt. right. reflexivity.
    + destruct u as [|c [|c' [|c'' u]]]; try discriminate.
      simpl in Hall. rewrite andb_true_r in Hall.
      apply andb_true_iff in Hall. destruct Hall as [Hc Hc'].
      exists [c], [c']. split; [reflexivity|]. split.
      * apply matches_Cls. eauto.
      * apply matches_Opt. left. apply matches_Cls. eauto.
Qed.

Lemma matches_alt_month_day (sep : ascii -> bool) (p : option ascii)
      (u b : text) :
  matches (alt_month_day_with sep) p u b <-> shape_month_day sep u.
Proof.
  unfold alt_month_day_with, shape_month_day, seps. split.
  - intros H. apply matches_Cat in H. destruct H as [mon [u2 [-> [Hmon H]]]].
    apply matches_Cat in H. destruct H as [sp1 [u3 [-> [Hsp1 H]]]].
    apply matches_Cat in H. destruct H as [day [u4 [-> [Hday H]]]].
    apply matches_Cat in H. destruct H as [sp2 [tm [-> [Hsp2 H]]]].
    apply matches_Alts_Lit in Hmon. apply matches_Plus_Cls in Hsp1.
    apply matches_day in Hday. apply matches_Plus_Cls in Hsp2.
    apply matches_hms in H.
    exists mon, sp1, day, sp2, tm. auto 10.
  - intros [mon [sp1 [day [sp2 [tm [-> [Hmon [Hsp1 [Hday [Hsp2 Htm]]]]]]]]]].
    apply M_Cat; [apply matches_Alts_Lit; exact Hmon|].
    apply M_Cat; [apply matches_Plus_Cls; exact Hsp1|].
    apply M_Cat; [apply matches_day; exact Hday|].
    apply M_Cat; [apply matches_Plus_Cls; exact Hsp2|].
    apply matches_hms. exact Htm.
Qed.

Lemma timestamp_re_with_spec (sep : ascii -> bool) (l : text) :
  re_match (timestamp_re_with sep) l = true <-> timestamp_start sep l.
Proof.
  unfold timestamp_start.
  rewrite re_match_spec. unfold timestamp_re_with, space. split.
  - intros [u [b [-> H]]].
    apply matches_Cat in H. destruct H as [u0 [u1 [-> [H0 H]]]].
    minv H0.
    apply matches_Cat in H. destruct H as [ws [stamp [-> [Hws H]]]].
    apply matches_Star_Cls in Hws.
    exists ws, stamp, b. simpl. rewrite <- app_assoc.
    split; [reflexivity|]. split; [exact Hws|].
    apply matches_Alt in H. destruct H as [H|H].
    + left. apply matches_alt_time in H. exact H.
    + apply matches_Alt in H. destruct H as [H|H].
      * right. left. apply matches_alt_date_time in H. exact H.
      * right. right. apply matches_alt_month_day in H. exact H.
  - intros [ws [stamp [rest [-> [Hws Hshape]]]]].
    exists (ws ++ stamp), rest. rewrite <- app_assoc.
    split; [reflexivity|].
    change (ws ++ stamp) with ([] ++ ws ++ stamp).
    apply M_Cat; [constructor|].
    apply M_Cat; [apply matches_Star_Cls; exact Hws|].
    apply matches_Alt. destruct Hshape as [H|[H|H]].
    + left. apply matches_alt_time. exact H.
    + right. apply matches_Alt. left. apply matches_alt_date_time. exact H.
    + right. apply matches_Alt. right. apply matches_alt_month_day. exact H.
Qed.

Lemma gate_spec (l : text) :
  starts_with_date_and_timestamp l = true <-> timestamp_start is_space l.
Proof. apply (timestamp_re_with_spec is_space l). Qed.

(** *** The gate does not depend on trailing whitespace *)

Lemma digit_not_space (c : ascii) : is_digit c = true -> is_space c = false.
Proof.
  destruct c as [b0 b1 b2 b3 b4 b5 b6 b7].
  destruct b0, b1, b2, b3, b4, b5, b6, b7; simpl; intros H;
    first [reflexivity|discriminate H].
Qed.

Lemma rstrip_cons_nonspace (d : ascii) (s : text) :
  is_space d = false -> rstrip (d :: s) = d :: rstrip s.
Proof.
  intros Hd. simpl. rewrite Hd. destruct (rstrip s); reflexivity.
Qed.

Lemma rstrip_app_nonspace (pre : text) (d : ascii) (rest : text) :
  is_space d = false ->
  rstrip (pre ++ d :: rest) = pre ++ d :: rstrip rest.
Proof.
  intros Hd. induction pre as [|c pre IH].
  - apply rstrip_cons_nonspace. exact Hd.
  - simpl. simpl in IH. rewrite IH.
    destruct pre; reflexivity.
Qed.

Lemma rstrip_prefix (s : text) : exists tail, s = rstrip s ++ tail.
Proof.
  induction s as [|c s [tail IH]]; simpl.
  - exists []. reflexivity.
  - destruct (rstrip s) as [|x t] eqn:E.
    + destruct (is_space c).
      * exists (c :: s). reflexivity.
      * exists tail. simpl in IH. simpl. congruence.
    + exists tail. simpl. rewrite IH at 1. reflexivity.
Qed.

Lemma forallb_last (f : ascii -> bool) (t : text) :
  t <> [] -> forallb f t = true ->
  exists t0 d, t = t0 ++ [d] /\ f d = true.
Proof.
  intros Hne Hall. destruct (exists_last Hne) as [t0 [d ->]].
  rewrite forallb_app in Hall. apply andb_true_iff in Hall.
  destruct Hall as [_ Hd]. simpl in Hd. rewrite andb_true_r in Hd.
  exists t0, d. auto.
Qed.

Lemma ends_with_digit_app (a t : text) :
  ends_with_digit t -> ends_with_digit (a ++ t).
Proof.
  intros [t0 [d [-> Hd]]]. exists (a ++ t0), d.
  rewrite app_assoc. auto.
Qed.

Lemma digits_ends_with_digit (n : nat) (t : text) :
  digits (S n) t -> ends_with_digit t.
Proof.
  intros [Hl Hall]. apply forallb_last; [|exact Hall].
  intros ->. discriminate.
Qed.

Lemma is_hms_ends_with_digit (t : text) : is_hms t -> ends_with_digit t.
Proof.
  intros [h [m [s [-> [_ [_ Hs]]]]]].
  repeat apply ends_with_digit_app.
  eapply digits_ends_with_digit; eauto.
Qed.

Lemma shape_time_ends_with_digit (t : text) :
  shape_time t -> ends_with_digit t.
Proof.
  intros [x [f [-> [Hx [->|[ds [-> [Hne Hall]]]]]]]].
  - rewrite app_nil_r. apply is_hms_ends_with_digit. exact Hx.
  - repeat apply ends_with_digit_app. apply forallb_last; assumption.
Qed.

Lemma timestamp_start_ends_with_digit (l : text) :
  timestamp_start is_space l ->
  exists pre d rest, l = pre ++ d :: rest /\ is_digit d = true /\
                     forall rest', timestamp_start is_space (pre ++ d :: rest').
Proof.
  intros [ws [stamp [rest [-> [Hws Hshape]]]]].
  assert (Hend : ends_with_digit stamp).
  { destruct Hshape as [H|[H|H]].
    - apply shape_time_ends_with_digit. exact H.
    - destruct H as [d [sp [tm [-> [_ [_ H]]]]]].
      repeat apply ends_with_digit_app.
      apply shape_time_ends_with_digit. exact H.
    - destruct H as [mon [sp1 [day [sp2 [tm [-> [_ [_ [_ [_ H]]]]]]]]]].
      repeat apply ends_with_digit_app.
      apply is_hms_ends_with_digit. exact H. }
  destruct Hend as [t0 [d [E Hd]]].
  exists (ws ++ t0), d, rest. split; [|split].
  - rewrite E, <- !app_assoc. reflexivity.
  - exact Hd.
  - intros rest'. exists ws, stamp, rest'. split; [|auto].
    rewrite E, <- !app_assoc. reflexivity.
Qed.

Lemma timestamp_start_app (l tail : text) :
  timestamp_start is_space l -> timestamp_start is_space (l ++ tail).
Proof.
  intros [ws [stamp [rest [-> H]]]]. exists ws, stamp, (rest ++ tail).
  rewrite <- !app_assoc. auto.
Qed.

Lemma gate_rstrip (l : text) :
  starts_with_date_and_timestamp (rstrip l)
  = starts_with_date_and_timestamp l.
Proof.
  apply eq_true_iff_eq. rewrite !gate_spec. split.
  - intros H. destruct (rstrip_prefix l) as [tail E]. rewrite E.
    apply timestamp_start_app. exact H.
  - intros H. apply timestamp_start_ends_with_digit in H.
    destruct H as [pre [d [rest [-> [Hd Hall]]]]].
    rewrite rstrip_app_nonspace by (apply digit_not_space; exact Hd).
    apply Hall.
Qed.

(** ** Substitution and redaction *)

Lemma search_at_false_ends (r : re) (prev : option ascii) (s : text) :
  search_at r prev s = false -> ends r prev s = [].
Proof.
  destruct s; simpl; destruct (ends r prev _); auto; discriminate.
Qed.

Lemma first_end_nil (adv : bool) (r : re) (prev : option ascii) (s : text) :
  ends r prev s = [] -> first_end adv r prev s = None.
Proof. unfold first_end. intros ->. reflexivity. Qed.

Lemma sub_loop_no_match (r : re) (repl : text) :
  forall fuel s prev adv,
    search_at r prev s = false -> sub_loop fuel r repl prev s adv = s.
Proof.
  induction fuel as [|fuel IH]; intros s prev adv H; simpl.
  - reflexivity.
  - rewrite (first_end_nil adv r prev s (search_at_false_ends r prev s H)).
    destruct s as [|c s]; [reflexivity|].
    f_equal. apply IH. simpl in H.
    destruct (ends r prev (c :: s)); [exact H|discriminate].
Qed.

Lemma re_sub_no_match (r : re) (repl s : text) :
  re_search r s = false -> re_sub r repl s = s.
Proof. intros H. unfold re_sub. apply sub_loop_no_match. exact H. Qed.


(** *** Erasing the marks gives the program's redaction *)

Lemma first_end_In (adv : bool) (r : re) (prev : option ascii) (s : text)
      (q : pos) :
  first_end adv r prev s = Some q ->
  In q (ends r prev s)
  /\ negb (adv && (length (snd q) =? length s)) = true.
Proof. unfold first_end. intros H. apply find_some in H. exact H. Qed.

Lemma first_end_suffix (adv : bool) (r : re) (prev : option ascii) (s : text)
      (q : pos) :
  first_end adv r prev s = Some q ->
  exists u, s = u ++ snd q /\ fst q = last_or prev u
            /\ matches r prev u (snd q).
Proof.
  intros H. apply first_end_In in H. destruct H as [H _].
  destruct q as [q b]. apply ends_sound in H. exact H.
Qed.

Lemma erase_app (a b : mtext) : erase (a ++ b) = erase a ++ erase b.
Proof. apply map_app. Qed.

Lemma erase_length (m : mtext) : length (erase m) = length m.
Proof. apply length_map. Qed.

Lemma erase_inserted (s : text) : erase (inserted s) = s.
Proof.
  unfold erase, inserted. rewrite map_map. simpl. apply map_id.
Qed.

Lemma erase_plain (s : text) : erase (plain s) = s.
Proof.
  unfold erase, plain. rewrite map_map. simpl. apply map_id.
Qed.

Lemma erase_suffix (m : mtext) (u b : text) :
  erase m = u ++ b ->
  exists mu mb, m = mu ++ mb /\ erase mu = u /\ erase mb = b
                /\ skipn (length m - length b) m = mb.
Proof.
  intros H. unfold erase in H. apply map_eq_app in H.
  destruct H as [mu [mb [-> [Hu Hb]]]]. exists mu, mb.
  repeat split; auto.
  rewrite <- Hb. unfold erase. rewrite length_map, length_app.
  replace (length mu + length mb - length mb) with (length mu + 0) by lia.
  rewrite skipn_app, Nat.add_0_r, skipn_all.
  replace (length mu - length mu) with 0 by lia. reflexivity.
Qed.

Lemma sub_loop_marked_erase (r : re) (repl : text) :
  forall fuel prev m adv,
    erase (sub_loop_marked fuel r repl prev m adv)
    = sub_loop fuel r repl prev (erase m) adv.
Proof.
  induction fuel as [|fuel IH]; intros prev m adv; simpl.
  - reflexivity.
  - destruct (first_end adv r prev (erase m)) as [q|] eqn:E.
    + rewrite erase_app, erase_inserted, IH. f_equal.
      destruct (first_end_suffix _ _ _ _ _ E) as [u [Hs _]].
      destruct (erase_suffix _ _ _ Hs) as [mu [mb [_ [_ [Hb Hskip]]]]].
      rewrite Hskip, Hb. reflexivity.
    + destruct m as [|c m]; [reflexivity|]. simpl. f_equal. apply IH.
Qed.

Lemma re_sub_marked_erase (r : re) (repl : text) (m : mtext) :
  erase (re_sub_marked r repl m) = re_sub r repl (erase m).
Proof. apply sub_loop_marked_erase. Qed.

Lemma redact_marked_erase (rs : list re) :
  forall m, erase (redact_marked rs m) = redact_sensitive rs (erase m).
Proof.
  induction rs as [|r rs IH]; intros m; simpl.
  - reflexivity.
  - rewrite IH, re_sub_marked_erase. reflexivity.
Qed.

(** *** The marks tell the inserted characters from those of the line *)

Lemma patched_refl (m : mtext) : patched m m.
Proof. induction m; constructor; assumption. Qed.

Lemma sub_loop_marked_patched (r : re) :
  forall fuel prev m adv,
    patched m (sub_loop_marked fuel r REDACTED prev m adv).
Proof.
  induction fuel as [|fuel IH]; intros prev m adv; simpl.
  - apply patched_refl.
  - destruct (first_end adv r prev (erase m)) as [q|] eqn:E.
    + destruct (first_end_suffix _ _ _ _ _ E) as [u [Hs _]].
      destruct (erase_suffix _ _ _ Hs) as [mu [mb [Em [_ [_ Hskip]]]]].
      rewrite Hskip. rewrite Em at 1. apply patched_insert. apply IH.
    + destruct m as [|c m]; constructor. apply IH.
Qed.

Lemma re_sub_marked_patched (r : re) (m : mtext) :
  patched m (re_sub_marked r REDACTED m).
Proof. apply sub_loop_marked_patched. Qed.

(** *** A match only depends on the text next to it *)

Lemma ctx_le_refl (b : text) : ctx_le b b.
Proof. split; auto. Qed.




(** *** Matches that start right after a known character *)










(** *** What the loop of [re.sub] leaves in front of the first token *)

Section SubLoop.

Variable r : re.
Variable repl : text.
Hypothesis repl_nonempty : repl <> [].









End SubLoop.

(** The fuel [re_sub] gives its loop is enough: more fuel does not change
    the result. *)
Lemma sub_loop_fuel (r : re) (repl : text) :
  forall f1 f2 prev s adv,
    sub_steps s adv <= f1 -> sub_steps s adv <= f2 ->
    sub_loop f1 r repl prev s adv = sub_loop f2 r repl prev s adv.
Proof.
  induction f1 as [|f1 IH]; intros f2 prev s adv H1 H2.
  - unfold sub_steps in H1. destruct adv; lia.
  - destruct f2 as [|f2]; [unfold sub_steps in H2; destruct adv; lia|].
    simpl. destruct (first_end adv r prev s) as [q|] eqn:E.
    + f_equal.
      destruct (first_end_suffix _ _ _ _ _ E) as [u [Hs _]].
      destruct (first_end_In _ _ _ _ _ E) as [_ Hadv].
      assert (Hlen : sub_steps (snd q) (length (snd q) =? length s) <= f1
                     /\ sub_steps (snd q) (length (snd q) =? length s) <= f2).
      { unfold sub_steps in *. rewrite Hs in *. rewrite length_app in *.
        destruct (Nat.eqb_spec (length (snd q)) (length u + length (snd q))).
        - destruct adv; [discriminate|]. lia.
        - destruct adv; lia. }
      apply IH; tauto.
    + destruct s as [|c s]; [reflexivity|]. f_equal.
      apply IH; unfold sub_steps in *; simpl in *; destruct adv; lia.
Qed.






Lemma redact_marked_plain (rs : list re) (l : text) :
  erase (redact_marked rs (plain l)) = redact_sensitive rs l.
Proof. rewrite redact_marked_erase, erase_plain. reflexivity. Qed.

Lemma sensitive_res_eq (rs : rules) : sensitive_res rs = sensitive_patterns rs.
Proof. unfold sensitive_res, compile_patterns. apply map_id. Qed.

(** Where the entries of a result list come from. *)
Lemma analyze_In (rs : rules) (proj : result -> list finding)
      (contrib : nat -> text -> list finding) :
  (forall st ln raw,
      proj (analyze_line rs st ln raw) = proj st ++ contrib ln raw) ->
  (forall ln raw f, In f (contrib ln raw) -> line f = ln) ->
  proj empty_result = [] ->
  forall lines f,
    In f (proj (analyze rs lines)) ->
    exists n raw,
      line f = S n /\ nth_error lines n = Some raw /\ In f (contrib (S n) raw).
Proof.
  intros Hstep Hline Hempty lines f Hin.
  assert (Hon : In f (findings_on (line f) (proj (analyze rs lines)))).
  { apply In_findings_on. auto. }
  unfold analyze in Hon.
  rewrite (scan_from_findings_on rs proj contrib Hstep Hline) in Hon.
  rewrite Hempty in Hon. simpl in Hon.
  destruct (line f) as [|n] eqn:El; [contradiction|].
  simpl in Hon. rewrite Nat.sub_0_r in Hon.
  destruct (nth_error lines n) as [raw|] eqn:En; [|contradiction].
  exists n, raw. auto.
Qed.

Lemma mem_spec (x : text) (xs : list text) : mem x xs = true <-> In x xs.
Proof.
  unfold mem. destruct (in_dec text_eq_dec x xs); split; auto; discriminate.
Qed.

Lemma mem_false (x : text) (xs : list text) : mem x xs = false <-> ~ In x xs.
Proof.
  unfold mem. destruct (in_dec text_eq_dec x xs); split; auto;
    [discriminate|contradiction].
Qed.

Lemma existsb_re_search (ps : list re) (l : text) :
  existsb (fun r => re_search r l) ps = true <->
  exists p, In p ps /\ has_match p l.
Proof.
  rewrite existsb_exists. split; intros [p [Hp H]]; exists p;
    (split; [exact Hp|apply re_search_spec; exact H]).
Qed.

(* ================================================================= *)
(** * The properties of the specification *)

(** ** The timestamp gate filters every rule *)

(** C2.  A line on which the timestamp gate [starts_with_date_and_timestamp]
    returns false puts no finding for its line number in any of the three
    result lists.  (The gate gives the same answer on the line as read
    and on the line with trailing whitespace stripped, [gate_rstrip].) *)
Theorem C2_ungated_line_no_finding (rs : rules) (lines : list text)
        (n : nat) (raw : text) :
  nth_error lines n = Some raw ->
  starts_with_date_and_timestamp raw = false ->
  forall f,
    In f (noisy_logs (analyze rs lines)
          ++ sensitive_logs (analyze rs lines)
          ++ severity_violations (analyze rs lines)) ->
    line f <> S n.
Proof.
  intros Hn Hgate f Hin Hline.
  rewrite <- gate_rstrip in Hgate.
  assert (Hnone : In f (findings_on (S n) (noisy_logs (analyze rs lines)))
                  \/ In f (findings_on (S n) (sensitive_logs (analyze rs lines)))
                  \/ In f (findings_on (S n)
                             (severity_violations (analyze rs lines)))).
  { apply in_app_or in Hin. destruct Hin as [Hin|Hin].
    - left. apply In_findings_on. auto.
    - apply in_app_or in Hin. destruct Hin as [Hin|Hin].
      + right. left. apply In_findings_on. auto.
      + right. right. apply In_findings_on. auto. }
  rewrite analyze_noisy_on, analyze_sensitive_on, analyze_severity_on, Hn
    in Hnone.
  unfold noisy_of, sensitive_of, severity_of in Hnone. cbv zeta in Hnone.
  rewrite Hgate in Hnone. simpl in Hnone. tauto.
Qed.

Lemma C2_witness :
  nth_error [sample_line; garbage_line] 1 = Some garbage_line
  /\ starts_with_date_and_timestamp garbage_line = false
  /\ forall f,
      In f (noisy_logs (analyze sample_rules [sample_line; garbage_line])
            ++ sensitive_logs (analyze sample_rules [sample_line; garbage_line])
            ++ severity_violations
                 (analyze sample_rules [sample_line; garbage_line])) ->
      line f <> 2.
Proof.
  split; [reflexivity|]. split; [vm_compute; reflexivity|].
  apply (C2_ungated_line_no_finding sample_rules
           [sample_line; garbage_line] 1 garbage_line).
  - reflexivity.
  - vm_compute. reflexivity.
Defined.

(** ** Level detection *)

Lemma whole_word_dec (lvl s : text) :
  In lvl level_names ->
  (re_search (level_re lvl) s = true <-> whole_word lvl s).
Proof.
  intros H. apply level_re_search. apply level_names_word_tokens. exact H.
Qed.

(** C3, as stated, fails: a line with [INFO] and [ERROR] as whole words
    that also has [FATAL] as a whole word is classified [FATAL], not
    [ERROR]. *)
Lemma C3_fatal_outranks_error :
  whole_word (T "INFO") (T "FATAL ERROR INFO")
  /\ whole_word (T "ERROR") (T "FATAL ERROR INFO")
  /\ detect_level (T "FATAL ERROR INFO") = T "FATAL"
  /\ detect_level (T "FATAL ERROR INFO") <> T "ERROR".
Proof.
  split; [|split; [|split]].
  - exists (T "FATAL ERROR "), []. repeat split.
  - exists (T "FATAL "), (T " INFO"). repeat split.
  - vm_compute. reflexivity.
  - vm_compute. discriminate.
Qed.

(** C3, amended.  [detect_level] returns the first token of the sequence
    FATAL, ERROR, WARN, INFO, DEBUG, TRACE that occurs as a whole word
    anywhere in the line, and UNKNOWN when none occurs; a line with both
    INFO and ERROR as whole words, in either order, is classified ERROR
    unless FATAL occurs as a whole word too, and then it is classified
    FATAL. *)
Theorem C3_detect_level_priority (s : text) :
  (forall pre lvl post,
      level_names = pre ++ lvl :: post ->
      whole_word lvl s ->
      (forall l', In l' pre -> ~ whole_word l' s) ->
      detect_level s = lvl)
  /\ ((forall lvl, In lvl level_names -> ~ whole_word lvl s) ->
      detect_level s = UNKNOWN)
  /\ (whole_word (T "INFO") s -> whole_word (T "ERROR") s ->
      (~ whole_word (T "FATAL") s -> detect_level s = T "ERROR")
      /\ (whole_word (T "FATAL") s -> detect_level s = T "FATAL")).
Proof.
  split; [|split].
  - intros pre lvl post E Hw Hno.
    apply (detect_level_from_first level_names s level_names_word_tokens
             pre lvl post E Hw Hno).
  - intros Hno.
    apply (detect_level_from_none level_names s level_names_word_tokens Hno).
  - intros _ Herr. split.
    + intros Hfatal.
      apply (detect_level_from_first level_names s level_names_word_tokens
               [T "FATAL"] (T "ERROR")
               [T "WARN"; T "INFO"; T "DEBUG"; T "TRACE"]);
        [reflexivity|exact Herr|].
      intros l' [<-|[]]. exact Hfatal.
    + intros Hfatal.
      apply (detect_level_from_first level_names s level_names_word_tokens
               [] (T "FATAL")
               [T "ERROR"; T "WARN"; T "INFO"; T "DEBUG"; T "TRACE"]);
        [reflexivity|exact Hfatal|].
      intros l' [].
Qed.

Lemma C3_witness :
  whole_word (T "INFO") (T "INFO then ERROR")
  /\ whole_word (T "ERROR") (T "INFO then ERROR")
  /\ ~ whole_word (T "FATAL") (T "INFO then ERROR")
  /\ detect_level (T "INFO then ERROR") = T "ERROR".
Proof.
  assert (Hinfo : whole_word (T "INFO") (T "INFO then ERROR")).
  { exists [], (T " then ERROR"). repeat split. }
  assert (Herr : whole_word (T "ERROR") (T "INFO then ERROR")).
  { exists (T "INFO then "), []. repeat split. }
  assert (Hfatal : ~ whole_word (T "FATAL") (T "INFO then ERROR")).
  { intros H. apply whole_word_dec in H; [|left; reflexivity].
    vm_compute in H. discriminate H. }
  split; [exact Hinfo|]. split; [exact Herr|]. split; [exact Hfatal|].
  exact (proj1 (proj2 (proj2 (C3_detect_level_priority
                                (T "INFO then ERROR"))) Hinfo Herr) Hfatal).
Defined.

(** C9.  Level detection is case-sensitive: in a line where none of the
    uppercase tokens occurs (a level word appears at most in another
    letter case), [detect_level] returns UNKNOWN, which is none of the six
    levels; the noisy rule and the severity rule then treat the line as
    UNKNOWN: it is noisy only if UNKNOWN is configured noisy, and a
    failure keyword in it is a violation unless UNKNOWN is a required
    severity. *)
Theorem C9_detect_level_case_sensitive (s : text) :
  (forall lvl, In lvl level_names -> ~ infix lvl s) ->
  detect_level s = UNKNOWN
  /\ ~ In (detect_level s) level_names
  /\ forall rs ln raw,
      rstrip raw = s ->
      (noisy_of rs ln raw <> [] -> In UNKNOWN (noisy_log_levels rs))
      /\ (In UNKNOWN (required_severity_on_failure rs) ->
          severity_of rs ln raw = []).
Proof.
  intros Hno.
  assert (E : detect_level s = UNKNOWN).
  { apply (detect_level_from_none level_names s level_names_word_tokens).
    intros lvl Hl Hw. apply (Hno lvl Hl). apply whole_word_infix. exact Hw. }
  split; [exact E|]. split.
  - rewrite E. simpl. intros H.
    repeat (destruct H as [H|H]; [discriminate H|]). contradiction.
  - intros rs ln raw Hs. unfold noisy_of, severity_of. cbv zeta.
    rewrite Hs, E. split.
    + destruct (mem UNKNOWN (noisy_log_levels rs)) eqn:M.
      * intros _. apply mem_spec. exact M.
      * rewrite andb_false_r. congruence.
    + intros Hin. apply mem_spec in Hin. rewrite Hin. simpl.
      rewrite andb_false_r. reflexivity.
Qed.

Lemma C9_witness :
  (forall lvl, In lvl level_names ->
               ~ infix lvl (T "12:00:00 error: Error in debug mode"))
  /\ detect_level (T "12:00:00 error: Error in debug mode") = UNKNOWN.
Proof.
  assert (H : forall lvl, In lvl level_names ->
                          ~ infix lvl (T "12:00:00 error: Error in debug mode")).
  { intros lvl Hl Hin. apply str_in_spec in Hin. simpl in Hl.
    repeat (destruct Hl as [<-|Hl]; [vm_compute in Hin; discriminate Hin|]).
    contradiction. }
  split; [exact H|].
  exact (proj1 (C9_detect_level_case_sensitive
                  (T "12:00:00 error: Error in debug mode") H)).
Defined.

(** ** The three rules on a gated line

    The line a rule sees is the text the loop keeps in [line]: the line
    read, with trailing whitespace stripped ([rstrip raw]). *)

(** C7.  A gated line whose detected level is in [noisy_log_levels] gets
    exactly one finding in the noisy list, with reason
    ["Noisy log level: "] followed by the level and with the redacted
    line as text; a gated line whose level is not in [noisy_log_levels]
    gets none. *)
Theorem C7_noisy_finding (rs : rules) (lines : list text) (n : nat)
        (raw : text) :
  nth_error lines n = Some raw ->
  starts_with_date_and_timestamp raw = true ->
  (In (detect_level (rstrip raw)) (noisy_log_levels rs) ->
   findings_on (S n) (noisy_logs (analyze rs lines))
   = [ {| line := S n;
          log := redact_sensitive (sensitive_patterns rs) (rstrip raw);
          reason := T "Noisy log level: " ++ detect_level (rstrip raw) |} ])
  /\ (~ In (detect_level (rstrip raw)) (noisy_log_levels rs) ->
      findings_on (S n) (noisy_logs (analyze rs lines)) = []).
Proof.
  intros Hn Hgate. rewrite <- gate_rstrip in Hgate.
  rewrite analyze_noisy_on, Hn. unfold noisy_of. cbv zeta.
  rewrite Hgate. simpl. split; intros H.
  - apply mem_spec in H. rewrite H. unfold noisy_finding.
    rewrite sensitive_res_eq. reflexivity.
  - apply mem_false in H. rewrite H. reflexivity.
Qed.

Lemma C7_witness :
  nth_error [sample_line] 0 = Some sample_line
  /\ starts_with_date_and_timestamp sample_line = true
  /\ In (detect_level (rstrip sample_line)) (noisy_log_levels sample_rules)
  /\ findings_on 1 (noisy_logs (analyze sample_rules [sample_line]))
     = [ {| line := 1;
            log := redact_sensitive (sensitive_patterns sample_rules)
                                    (rstrip sample_line);
            reason := T "Noisy log level: "
                      ++ detect_level (rstrip sample_line) |} ].
Proof.
  assert (Hin : In (detect_level (rstrip sample_line))
                   (noisy_log_levels sample_rules)).
  { vm_compute. left. reflexivity. }
  split; [reflexivity|]. split; [vm_compute; reflexivity|].
  split; [exact Hin|].
  apply (proj1 (C7_noisy_finding sample_rules [sample_line] 0 sample_line
                  eq_refl eq_refl) Hin).
Defined.

(** C5.  A gated line that some configured sensitive pattern matches gets
    exactly one finding in the sensitive list, however many patterns
    match it; a gated line that no pattern matches gets none. *)
Theorem C5_one_sensitive_finding (rs : rules) (lines : list text) (n : nat)
        (raw : text) :
  nth_error lines n = Some raw ->
  starts_with_date_and_timestamp raw = true ->
  ((exists p, In p (sensitive_patterns rs) /\ has_match p (rstrip raw)) ->
   findings_on (S n) (sensitive_logs (analyze rs lines))
   = [ {| line := S n;
          log := redact_sensitive (sensitive_patterns rs) (rstrip raw);
          reason := T "Sensitive / PII data detected" |} ])
  /\ ((forall p, In p (sensitive_patterns rs) -> ~ has_match p (rstrip raw)) ->
      findings_on (S n) (sensitive_logs (analyze rs lines)) = []).
Proof.
  intros Hn Hgate. rewrite <- gate_rstrip in Hgate.
  rewrite analyze_sensitive_on, Hn. unfold sensitive_of. cbv zeta.
  rewrite Hgate. simpl. unfold any_sensitive, sensitive_finding.
  rewrite sensitive_res_eq. split; intros H.
  - apply existsb_re_search in H. rewrite H. reflexivity.
  - destruct (existsb (fun r => re_search r (rstrip raw))
                      (sensitive_patterns rs)) eqn:E; [|reflexivity].
    apply existsb_re_search in E. destruct E as [p [Hp Hm]].
    exfalso. apply (H p Hp Hm).
Qed.

Lemma C5_witness :
  nth_error [T "12:00:00 id 123-45-6789 and 987-65-4321"] 0
  = Some (T "12:00:00 id 123-45-6789 and 987-65-4321")
  /\ starts_with_date_and_timestamp
       (T "12:00:00 id 123-45-6789 and 987-65-4321") = true
  /\ findings_on 1
       (sensitive_logs
          (analyze {| sensitive_patterns := [ssn_re; Rep 3 digit];
                      failure_keywords := [];
                      noisy_log_levels := [];
                      required_severity_on_failure := [] |}
                   [T "12:00:00 id 123-45-6789 and 987-65-4321"]))
     = [ {| line := 1;
            log := T "12:00:00 id [REDACTED] and [REDACTED]";
            reason := T "Sensitive / PII data detected" |} ].
Proof.
  split; [reflexivity|]. split; [vm_compute; reflexivity|].
  apply (proj1 (C5_one_sensitive_finding
                  {| sensitive_patterns := [ssn_re; Rep 3 digit];
                     failure_keywords := [];
                     noisy_log_levels := [];
                     required_severity_on_failure := [] |}
                  [T "12:00:00 id 123-45-6789 and 987-65-4321"] 0
                  (T "12:00:00 id 123-45-6789 and 987-65-4321")
                  eq_refl eq_refl)).
  exists ssn_re. split; [left; reflexivity|].
  apply re_search_spec. vm_compute. reflexivity.
Defined.







(** ** The shapes the timestamp gate accepts *)

Lemma seps_mono (sep sep' : ascii -> bool) (t : text) :
  (forall c, sep c = true -> sep' c = true) -> seps sep t -> seps sep' t.
Proof.
  intros Hsub [Hne Hall]. split; [exact Hne|].
  rewrite forallb_forall in *. auto.
Qed.

Lemma timestamp_start_mono (sep sep' : ascii -> bool) (l : text) :
  (forall c, sep c = true -> sep' c = true) ->
  timestamp_start sep l -> timestamp_start sep' l.
Proof.
  intros Hsub [ws [stamp [rest [E [Hws Hshape]]]]].
  exists ws, stamp, rest. split; [exact E|]. split; [exact Hws|].
  destruct Hshape as [H|[H|H]].
  - left. exact H.
  - right. left. destruct H as [d [sp [tm [Et [Hd [Hsp Htm]]]]]].
    exists d, sp, tm. eauto using seps_mono.
  - right. right.
    destruct H as [mon [sp1 [day [sp2 [tm [Et [Hm [H1 [Hd [H2 Ht]]]]]]]]]].
    exists mon, sp1, day, sp2, tm. eauto 10 using seps_mono.
Qed.

Lemma blank_is_space (c : ascii) : is_blank c = true -> is_space c = true.
Proof.
  unfold is_blank. intros H. apply Ascii.eqb_eq in H. subst. reflexivity.
Qed.

(** C8, as stated, fails: a date and a time separated by a tab pass the
    gate, and a tab is not a space. *)
Lemma C8_tab_between_date_and_time :
  starts_with_date_and_timestamp tab_line = true
  /\ ~ timestamp_start is_blank tab_line.
Proof.
  split.
  - vm_compute. reflexivity.
  - intros H. apply timestamp_re_with_spec in H. vm_compute in H.
    discriminate H.
Qed.

(** C8, amended.  The gate returns true exactly for the lines that, after
    optional leading whitespace, start with one of the three shapes
    (a) HH:MM:SS with an optional fraction, (b) YYYY-MM-DD, one or more
    whitespace characters, shape (a), (c) a month abbreviation, one or
    more whitespace characters, a day of one or two digits, one or more
    whitespace characters, HH:MM:SS; the shapes written with spaces are
    among them; a blank or whitespace-only line never passes. *)
Theorem C8_gate_iff_timestamp_start (l : text) :
  (starts_with_date_and_timestamp l = true <-> timestamp_start is_space l)
  /\ (timestamp_start is_blank l -> starts_with_date_and_timestamp l = true)
  /\ (forallb is_space l = true -> starts_with_date_and_timestamp l = false).
Proof.
  split; [apply gate_spec|]. split.
  - intros H. apply gate_spec.
    apply (timestamp_start_mono is_blank is_space l blank_is_space H).
  - intros Hall.
    destruct (starts_with_date_and_timestamp l) eqn:E; [|reflexivity].
    apply gate_spec in E. apply timestamp_start_ends_with_digit in E.
    destruct E as [pre [d [rest [-> [Hd _]]]]].
    rewrite forallb_app in Hall. apply andb_true_iff in Hall.
    destruct Hall as [_ Hall]. simpl in Hall.
    rewrite (digit_not_space d Hd) in Hall. discriminate.
Qed.

Lemma C8_witness :
  forallb is_space (T "    ") = true
  /\ starts_with_date_and_timestamp (T "    ") = false
  /\ timestamp_start is_blank (T "  Nov  1 04:31:14 boot")
  /\ starts_with_date_and_timestamp (T "  Nov  1 04:31:14 boot") = true.
Proof.
  assert (Hshape : timestamp_start is_blank (T "  Nov  1 04:31:14 boot")).
  { exists (T "  "), (T "Nov  1 04:31:14"), (T " boot").
    split; [reflexivity|]. split; [reflexivity|]. right. right.
    exists (T "Nov"), (T "  "), (T "1"), (T " "), (T "04:31:14").
    split; [reflexivity|]. split; [simpl; tauto|].
    split; [split; [discriminate|reflexivity]|].
    split; [left; split; reflexivity|].
    split; [split; [discriminate|reflexivity]|].
    exists (T "04"), (T "31"), (T "14").
    repeat split. }
  split; [reflexivity|].
  split; [exact (proj2 (proj2 (C8_gate_iff_timestamp_start (T "    ")))
                       eq_refl)|].
  split; [exact Hshape|].
  exact (proj1 (proj2 (C8_gate_iff_timestamp_start
                         (T "  Nov  1 04:31:14 boot"))) Hshape).
Defined.

(** ** Redaction *)











(* ================================================================= *)
(** * Scenarios *)

(** [re.sub('x*', '-', 'abxd') == '-a-b--d-']: empty matches are replaced
    too, also right after a non-empty match. *)
Example re_sub_empty_matches :
  re_sub (Star (Chr "x")) (T "-") (T "abxd") = T "-a-b--d-".
Proof. reflexivity. Qed.

(** [re.sub('(?:|a)*', '-', 'ba') == '-b---']: a repetition whose body
    matched the empty text stops there, so the first match at [a] is
    empty; the next one has to advance and takes the [a]. *)
Example re_sub_empty_iteration :
  re_sub (Star (Alt Eps (Chr "a"))) (T "-") (T "ba") = T "-b---".
Proof. reflexivity. Qed.

(** The scenario of the specification: an INFO line with a failure
    keyword and a social security number is reported in all three
    lists, with the number redacted. *)
Example sample_line_three_findings :
  analyze sample_rules [sample_line]
  = {| noisy_logs :=
         [ {| line := 1; log := sample_redacted;
              reason := T "Noisy log level: INFO" |} ];
       sensitive_logs :=
         [ {| line := 1; log := sample_redacted;
              reason := T "Sensitive / PII data detected" |} ];
       severity_violations :=
         [ {| line := 1; log := sample_redacted;
              reason :=
                T "Failure logged without required severity: ERROR, FATAL"
           |} ] |}.
Proof. vm_compute. reflexivity. Qed.

(** A line without a timestamp gives no finding. *)
Example garbage_line_no_finding :
  analyze sample_rules [garbage_line] = empty_result.
Proof. vm_compute. reflexivity. Qed.

(** With no sensitive pattern configured the sensitive list stays
    empty. *)
Lemma no_pattern_no_sensitive_finding (rs : rules) (lines : list text) :
  sensitive_patterns rs = [] -> sensitive_logs (analyze rs lines) = [].
Proof.
  intros Hnone.
  destruct (sensitive_logs (analyze rs lines)) as [|f fs] eqn:E;
    [reflexivity|exfalso].
  assert (Hin : In f (sensitive_logs (analyze rs lines))).
  { rewrite E. left. reflexivity. }
  destruct (analyze_In rs sensitive_logs (sensitive_of rs)
              (analyze_line_sensitive rs) (sensitive_of_line rs) eq_refl
              lines f Hin) as [n [raw [_ [_ Hf]]]].
  unfold sensitive_of, any_sensitive in Hf. cbv zeta in Hf.
  rewrite sensitive_res_eq, Hnone in Hf. simpl in Hf.
  rewrite andb_false_r in Hf. contradiction.
Qed.

(* ================================================================= *)
(** * Further properties of the scan *)

(** ** The result lists in closed form *)

Lemma scan_from_contribs (rs : rules) (proj : result -> list finding)
      (contrib : nat -> text -> list finding) :
  (forall st ln raw,
      proj (analyze_line rs st ln raw) = proj st ++ contrib ln raw) ->
  forall lines ln st,
    proj (scan_from rs ln lines st) = proj st ++ contribs contrib ln lines.
Proof.
  intros Hstep. induction lines as [|raw lines IH]; intros ln st; simpl.
  - rewrite app_nil_r. reflexivity.
  - rewrite IH, Hstep, <- app_assoc. reflexivity.
Qed.

Lemma analyze_noisy_contribs (rs : rules) (lines : list text) :
  noisy_logs (analyze rs lines) = contribs (noisy_of rs) 1 lines.
Proof.
  unfold analyze.
  rewrite (scan_from_contribs rs noisy_logs (noisy_of rs)
             (analyze_line_noisy rs)).
  reflexivity.
Qed.

Lemma analyze_sensitive_contribs (rs : rules) (lines : list text) :
  sensitive_logs (analyze rs lines) = contribs (sensitive_of rs) 1 lines.
Proof.
  unfold analyze.
  rewrite (scan_from_contribs rs sensitive_logs (sensitive_of rs)
             (analyze_line_sensitive rs)).
  reflexivity.
Qed.

Lemma analyze_severity_contribs (rs : rules) (lines : list text) :
  severity_violations (analyze rs lines) = contribs (severity_of rs) 1 lines.
Proof.
  unfold analyze.
  rewrite (scan_from_contribs rs severity_violations (severity_of rs)
             (analyze_line_severity rs)).
  reflexivity.
Qed.

Lemma contribs_app (contrib : nat -> text -> list finding) :
  forall l1 l2 ln,
    contribs contrib ln (l1 ++ l2)
    = contribs contrib ln l1 ++ contribs contrib (length l1 + ln) l2.
Proof.
  induction l1 as [|raw l1 IH]; intros l2 ln; simpl.
  - reflexivity.
  - rewrite IH, <- app_assoc. do 3 f_equal. lia.
Qed.

Lemma contribs_shift (contrib : nat -> text -> list finding) (k : nat) :
  (forall ln raw,
      contrib (k + ln) raw = map (shift_finding k) (contrib ln raw)) ->
  forall lines ln,
    contribs contrib (k + ln) lines
    = map (shift_finding k) (contribs contrib ln lines).
Proof.
  intros Hshift. induction lines as [|raw lines IH]; intros ln; simpl.
  - reflexivity.
  - rewrite map_app, Hshift. f_equal.
    replace (S (k + ln)) with (k + S ln) by lia. apply IH.
Qed.

Lemma contribs_lines (contrib : nat -> text -> list finding) :
  (forall ln raw f, In f (contrib ln raw) -> line f = ln) ->
  forall lines ln f,
    In f (contribs contrib ln lines) ->
    ln <= line f < ln + length lines.
Proof.
  intros Hline. induction lines as [|raw lines IH]; intros ln f Hin;
    simpl in Hin.
  - contradiction.
  - apply in_app_or in Hin. destruct Hin as [Hin|Hin].
    + apply Hline in Hin. simpl. lia.
    + apply IH in Hin. simpl. lia.
Qed.

Lemma contribs_sorted (contrib : nat -> text -> list finding) :
  (forall ln raw f, In f (contrib ln raw) -> line f = ln) ->
  (forall ln raw, length (contrib ln raw) <= 1) ->
  forall lines ln,
    StronglySorted lt (map line (contribs contrib ln lines)).
Proof.
  intros Hline Hone. induction lines as [|raw lines IH]; intros ln; simpl.
  - constructor.
  - specialize (IH (S ln)).
    assert (Hrest : forall f, In f (contribs contrib (S ln) lines) ->
                              ln < line f).
    { intros f Hf. apply (contribs_lines contrib Hline) in Hf. lia. }
    specialize (Hone ln raw). specialize (Hline ln raw).
    destruct (contrib ln raw) as [|f [|g fs]]; simpl in *.
    + exact IH.
    + constructor; [exact IH|].
      apply Forall_forall. intros x Hx. apply in_map_iff in Hx.
      destruct Hx as [y [<- Hy]]. rewrite (Hline f (or_introl eq_refl)).
      apply Hrest. exact Hy.
    + lia.
Qed.

Lemma noisy_of_length (rs : rules) (ln : nat) (raw : text) :
  length (noisy_of rs ln raw) <= 1.
Proof. unfold noisy_of. cbv zeta. destruct (_ && _); simpl; lia. Qed.

Lemma sensitive_of_length (rs : rules) (ln : nat) (raw : text) :
  length (sensitive_of rs ln raw) <= 1.
Proof. unfold sensitive_of. cbv zeta. destruct (_ && _); simpl; lia. Qed.

Lemma severity_of_length (rs : rules) (ln : nat) (raw : text) :
  length (severity_of rs ln raw) <= 1.
Proof.
  unfold severity_of. cbv zeta. destruct (_ && _ && _); simpl; lia.
Qed.

(** X1.  In each of the three lists [analyze] returns, the line numbers
    are strictly increasing (so no list reports a line twice), and every
    line number is one of 1 .. number of lines. *)
Theorem X1_lists_ordered_by_line (rs : rules) (lines : list text) :
  StronglySorted lt (map line (noisy_logs (analyze rs lines)))
  /\ StronglySorted lt (map line (sensitive_logs (analyze rs lines)))
  /\ StronglySorted lt (map line (severity_violations (analyze rs lines)))
  /\ forall f,
      In f (noisy_logs (analyze rs lines)
            ++ sensitive_logs (analyze rs lines)
            ++ severity_violations (analyze rs lines)) ->
      1 <= line f <= length lines.
Proof.
  rewrite analyze_noisy_contribs, analyze_sensitive_contribs,
    analyze_severity_contribs.
  split; [|split; [|split]].
  - apply contribs_sorted; [apply noisy_of_line|apply noisy_of_length].
  - apply contribs_sorted; [apply sensitive_of_line|apply sensitive_of_length].
  - apply contribs_sorted; [apply severity_of_line|apply severity_of_length].
  - intros f Hin.
    assert (H : 1 <= line f < 1 + length lines); [|lia].
    apply in_app_or in Hin. destruct Hin as [Hin|Hin];
      [|apply in_app_or in Hin; destruct Hin as [Hin|Hin]].
    + apply (contribs_lines (noisy_of rs) (noisy_of_line rs) _ _ _ Hin).
    + apply (contribs_lines (sensitive_of rs) (sensitive_of_line rs) _ _ _ Hin).
    + apply (contribs_lines (severity_of rs) (severity_of_line rs) _ _ _ Hin).
Qed.

Lemma noisy_of_shift (rs : rules) (k ln : nat) (raw : text) :
  noisy_of rs (k + ln) raw = map (shift_finding k) (noisy_of rs ln raw).
Proof. unfold noisy_of. cbv zeta. destruct (_ && _); reflexivity. Qed.

Lemma sensitive_of_shift (rs : rules) (k ln : nat) (raw : text) :
  sensitive_of rs (k + ln) raw
  = map (shift_finding k) (sensitive_of rs ln raw).
Proof. unfold sensitive_of. cbv zeta. destruct (_ && _); reflexivity. Qed.

Lemma severity_of_shift (rs : rules) (k ln : nat) (raw : text) :
  severity_of rs (k + ln) raw
  = map (shift_finding k) (severity_of rs ln raw).
Proof. unfold severity_of. cbv zeta. destruct (_ && _ && _); reflexivity. Qed.

Lemma result_eq (r1 r2 : result) :
  noisy_logs r1 = noisy_logs r2 ->
  sensitive_logs r1 = sensitive_logs r2 ->
  severity_violations r1 = severity_violations r2 ->
  r1 = r2.
Proof. destruct r1, r2. simpl. intros -> -> ->. reflexivity. Qed.

(** X2.  Scanning a file made of two parts gives, list by list, the
    findings of the first part followed by the findings of the second
    part with their line numbers moved up by the length of the first:
    no rule carries anything from one line to the next. *)
Theorem X2_analyze_app (rs : rules) (l1 l2 : list text) :
  analyze rs (l1 ++ l2)
  = append_results (analyze rs l1)
                   (shift_result (length l1) (analyze rs l2)).
Proof.
  apply result_eq; unfold append_results, shift_result; simpl.
  - rewrite !analyze_noisy_contribs, contribs_app. f_equal.
    apply contribs_shift. intros ln raw. apply noisy_of_shift.
  - rewrite !analyze_sensitive_contribs, contribs_app. f_equal.
    apply contribs_shift. intros ln raw. apply sensitive_of_shift.
  - rewrite !analyze_severity_contribs, contribs_app. f_equal.
    apply contribs_shift. intros ln raw. apply severity_of_shift.
Qed.

Lemma X1_witness :
  In {| line := 2; log := T "12:00:01 DEBUG y";
        reason := T "Noisy log level: DEBUG" |}
     (noisy_logs (analyze sample_rules
                    [T "12:00:00 INFO x"; T "12:00:01 DEBUG y"])
      ++ sensitive_logs (analyze sample_rules
                           [T "12:00:00 INFO x"; T "12:00:01 DEBUG y"])
      ++ severity_violations (analyze sample_rules
                                [T "12:00:00 INFO x"; T "12:00:01 DEBUG y"]))
  /\ 1 <= 2 <= length [T "12:00:00 INFO x"; T "12:00:01 DEBUG y"].
Proof.
  assert (Hin : In {| line := 2; log := T "12:00:01 DEBUG y";
                      reason := T "Noisy log level: DEBUG" |}
                   (noisy_logs (analyze sample_rules
                                  [T "12:00:00 INFO x"; T "12:00:01 DEBUG y"])
                    ++ sensitive_logs
                         (analyze sample_rules
                            [T "12:00:00 INFO x"; T "12:00:01 DEBUG y"])
                    ++ severity_violations
                         (analyze sample_rules
                            [T "12:00:00 INFO x"; T "12:00:01 DEBUG y"]))).
  { vm_compute. right. left. reflexivity. }
  split; [exact Hin|].
  exact (proj2 (proj2 (proj2 (X1_lists_ordered_by_line sample_rules
           [T "12:00:00 INFO x"; T "12:00:01 DEBUG y"]))) _ Hin).
Defined.

Lemma contribs_ext (c1 c2 : nat -> text -> list finding) :
  (forall ln raw, c1 ln raw = c2 ln raw) ->
  forall lines ln, contribs c1 ln lines = contribs c2 ln lines.
Proof.
  intros H. induction lines as [|raw lines IH]; intros ln; simpl.
  - reflexivity.
  - rewrite H, IH. reflexivity.
Qed.

(** X3.  Each result list depends only on the rules its own test reads
    (and on the sensitive patterns, which redact the text): the
    sensitive list on the sensitive patterns alone, the noisy list on
    the noisy levels, the severity list on the failure keywords and the
    required severities. *)
Theorem X3_lists_depend_on_their_rules (rs1 rs2 : rules)
        (lines : list text) :
  sensitive_patterns rs1 = sensitive_patterns rs2 ->
  sensitive_logs (analyze rs1 lines) = sensitive_logs (analyze rs2 lines)
  /\ (noisy_log_levels rs1 = noisy_log_levels rs2 ->
      noisy_logs (analyze rs1 lines) = noisy_logs (analyze rs2 lines))
  /\ (failure_keywords rs1 = failure_keywords rs2 ->
      required_severity_on_failure rs1 = required_severity_on_failure rs2 ->
      severity_violations (analyze rs1 lines)
      = severity_violations (analyze rs2 lines)).
Proof.
  intros Hp.
  assert (Hres : sensitive_res rs1 = sensitive_res rs2).
  { unfold sensitive_res. rewrite Hp. reflexivity. }
  split; [|split].
  - rewrite !analyze_sensitive_contribs. apply contribs_ext. intros ln raw.
    unfold sensitive_of, any_sensitive, sensitive_finding.
    rewrite Hres. reflexivity.
  - intros Hn. rewrite !analyze_noisy_contribs. apply contribs_ext.
    intros ln raw. unfold noisy_of, noisy_finding.
    rewrite Hres, Hn. reflexivity.
  - intros Hk Hr. rewrite !analyze_severity_contribs. apply contribs_ext.
    intros ln raw.
    unfold severity_of, any_failure_keyword, severity_finding.
    rewrite Hres, Hk, Hr. reflexivity.
Qed.

Lemma X3_witness :
  sensitive_patterns sample_rules
  = sensitive_patterns
      {| sensitive_patterns := [ssn_re];
         failure_keywords := [T "panic"];
         noisy_log_levels := [];
         required_severity_on_failure := [T "FATAL"] |}
  /\ sensitive_logs (analyze sample_rules [sample_line])
     = sensitive_logs
         (analyze {| sensitive_patterns := [ssn_re];
                     failure_keywords := [T "panic"];
                     noisy_log_levels := [];
                     required_severity_on_failure := [T "FATAL"] |}
                  [sample_line]).
Proof.
  split; [reflexivity|].
  exact (proj1 (X3_lists_depend_on_their_rules sample_rules
                  {| sensitive_patterns := [ssn_re];
                     failure_keywords := [T "panic"];
                     noisy_log_levels := [];
                     required_severity_on_failure := [T "FATAL"] |}
                  [sample_line] eq_refl)).
Defined.

(** ** Redaction leaves a token wherever something matched *)

Lemma infix_cons (k : text) (c : ascii) (s : text) :
  infix k s -> infix k (c :: s).
Proof.
  intros [pre [post ->]]. exists (c :: pre), post. reflexivity.
Qed.

Lemma infix_prefix (k s : text) : infix k (k ++ s).
Proof. exists [], s. reflexivity. Qed.

Lemma sub_loop_has_token (r : re) (repl : text) :
  forall s prev fuel,
    search_at r prev s = true -> length s < fuel ->
    infix repl (sub_loop fuel r repl prev s false).
Proof.
  induction s as [|c s IH]; intros prev fuel Hs Hf;
    (destruct fuel as [|fuel]; [simpl in Hf; lia|]); simpl in Hs |- *.
  - unfold first_end. destruct (ends r prev []) as [|q l]; [discriminate|].
    simpl. apply infix_prefix.
  - unfold first_end. destruct (ends r prev (c :: s)) as [|q l].
    + simpl. apply infix_cons. apply IH; [exact Hs|simpl in Hf; lia].
    + simpl. apply infix_prefix.
Qed.

Lemma re_sub_has_token (r : re) (repl s : text) :
  re_search r s = true -> infix repl (re_sub r repl s).
Proof.
  intros H. unfold re_sub. apply sub_loop_has_token; [exact H|lia].
Qed.

Lemma re_sub_keeps_token (r : re) (repl s : text) :
  infix repl s -> infix repl (re_sub r repl s).
Proof.
  intros H. destruct (re_search r s) eqn:E.
  - apply re_sub_has_token. exact E.
  - rewrite re_sub_no_match by exact E. exact H.
Qed.

Lemma redact_keeps_token (ps : list re) :
  forall s, infix REDACTED s -> infix REDACTED (redact_sensitive ps s).
Proof.
  induction ps as [|p ps IH]; intros s H; simpl.
  - exact H.
  - apply IH. apply re_sub_keeps_token. exact H.
Qed.

Lemma redact_has_token (ps : list re) :
  forall s,
    existsb (fun r => re_search r s) ps = true ->
    infix REDACTED (redact_sensitive ps s).
Proof.
  induction ps as [|p ps IH]; intros s H; simpl in H |- *.
  - discriminate.
  - destruct (re_search p s) eqn:E.
    + apply redact_keeps_token. apply re_sub_has_token. exact E.
    + rewrite re_sub_no_match by exact E. apply IH. exact H.
Qed.

(** X4.  When some configured pattern matches a line, the redacted line
    contains the token [[REDACTED]]: later patterns can rewrite a token
    but never remove the last one.  So the text of every finding in the
    sensitive list contains the token. *)
Theorem X4_match_leaves_token (rs : rules) :
  (forall l,
      (exists p, In p (sensitive_patterns rs) /\ has_match p l) ->
      infix REDACTED (redact_sensitive (sensitive_patterns rs) l))
  /\ forall lines f,
      In f (sensitive_logs (analyze rs lines)) -> infix REDACTED (log f).
Proof.
  split.
  - intros l H. apply redact_has_token. apply existsb_re_search. exact H.
  - intros lines f Hin.
    destruct (analyze_In rs sensitive_logs (sensitive_of rs)
                (analyze_line_sensitive rs) (sensitive_of_line rs) eq_refl
                lines f Hin) as [n [raw [_ [_ Hf]]]].
    unfold sensitive_of in Hf. cbv zeta in Hf.
    destruct (starts_with_date_and_timestamp (rstrip raw)); simpl in Hf;
      [|contradiction].
    destruct (any_sensitive rs (rstrip raw)) eqn:E; [|contradiction].
    destruct Hf as [<-|[]]. simpl. apply redact_has_token. exact E.
Qed.

Lemma X4_witness :
  (exists p, In p (sensitive_patterns sample_rules) /\ has_match p sample_line)
  /\ infix REDACTED
       (redact_sensitive (sensitive_patterns sample_rules) sample_line).
Proof.
  assert (H : exists p, In p (sensitive_patterns sample_rules)
                        /\ has_match p sample_line).
  { exists ssn_re. split; [left; reflexivity|].
    apply re_search_spec. vm_compute. reflexivity. }
  split; [exact H|].
  exact (proj1 (X4_match_leaves_token sample_rules) sample_line H).
Defined.

(** ** Redaction keeps the rest of the line *)

Lemma subseq_refl (a : text) : subseq a a.
Proof. induction a; constructor; assumption. Qed.

Lemma subseq_app_drop (a b x : text) : subseq a b -> subseq a (x ++ b).
Proof. intros H. induction x; simpl; [exact H|constructor; assumption]. Qed.

Lemma subseq_trans (a b c : text) :
  subseq a b -> subseq b c -> subseq a c.
Proof.
  intros Hab Hbc. revert a Hab.
  induction Hbc as [|x b c Hbc IH|x b c Hbc IH]; intros a Hab.
  - exact Hab.
  - inversion Hab; subst.
    + constructor. apply IH. assumption.
    + constructor. apply IH. assumption.
  - constructor. apply IH. exact Hab.
Qed.

Lemma from_line_app (a b : mtext) :
  from_line (a ++ b) = from_line a ++ from_line b.
Proof. unfold from_line. rewrite filter_app. apply erase_app. Qed.

Lemma from_line_inserted (s : text) : from_line (inserted s) = [].
Proof. induction s; simpl; auto. Qed.

Lemma from_line_plain (s : text) : from_line (plain s) = s.
Proof.
  induction s as [|c s IH]; simpl; [reflexivity|].
  unfold from_line in *. simpl. rewrite IH. reflexivity.
Qed.

Lemma patched_from_line (m out : mtext) :
  patched m out -> subseq (from_line out) (from_line m).
Proof.
  intros H. induction H as [|c m out H IH|u m out H IH].
  - constructor.
  - unfold from_line in *. simpl. destruct (marked c); simpl.
    + exact IH.
    + constructor. exact IH.
  - rewrite !from_line_app, from_line_inserted. simpl.
    apply subseq_app_drop. exact IH.
Qed.

Lemma patched_marks (m out : mtext) :
  patched m out ->
  (forall c, In c m -> marked c = true -> In (fst c) REDACTED) ->
  forall c, In c out -> marked c = true -> In (fst c) REDACTED.
Proof.
  intros H. induction H as [|x m out H IH|u m out H IH]; intros Hm c Hc Hmk.
  - contradiction.
  - destruct Hc as [<-|Hc].
    + apply Hm; [left; reflexivity|exact Hmk].
    + apply IH; auto. intros c' Hc'. apply Hm. right. exact Hc'.
  - apply in_app_or in Hc. destruct Hc as [Hc|Hc].
    + unfold inserted in Hc. apply in_map_iff in Hc.
      destruct Hc as [y [<- Hy]]. exact Hy.
    + apply IH; auto. intros c' Hc'. apply Hm. apply in_or_app. right.
      exact Hc'.
Qed.

Lemma redact_marked_from_line (ps : list re) :
  forall m, subseq (from_line (redact_marked ps m)) (from_line m).
Proof.
  induction ps as [|p ps IH]; intros m; simpl.
  - apply subseq_refl.
  - apply (subseq_trans _ (from_line (re_sub_marked p REDACTED m))).
    + apply IH.
    + apply patched_from_line. apply re_sub_marked_patched.
Qed.

Lemma redact_marked_marks (ps : list re) :
  forall m,
    (forall c, In c m -> marked c = true -> In (fst c) REDACTED) ->
    forall c, In c (redact_marked ps m) -> marked c = true ->
              In (fst c) REDACTED.
Proof.
  induction ps as [|p ps IH]; intros m Hm; simpl.
  - exact Hm.
  - apply IH. apply (patched_marks m); [apply re_sub_marked_patched|exact Hm].
Qed.

(** X5.  Redaction only replaces: the redacted line is made of
    characters of [[REDACTED]] tokens and of characters of the line, and
    the latter are the line's characters in their order, with the
    replaced stretches left out.  Nothing of the line is moved or
    repeated. *)
Theorem X5_redaction_keeps_order (ps : list re) (l : text) :
  erase (redact_marked ps (plain l)) = redact_sensitive ps l
  /\ subseq (from_line (redact_marked ps (plain l))) l
  /\ forall c,
      In c (redact_marked ps (plain l)) -> marked c = true ->
      In (fst c) REDACTED.
Proof.
  split; [apply redact_marked_plain|]. split.
  - rewrite <- (from_line_plain l) at 2. apply redact_marked_from_line.
  - apply redact_marked_marks. intros c Hc Hmk. unfold plain in Hc.
    apply in_map_iff in Hc. destruct Hc as [x [<- _]]. discriminate Hmk.
Qed.

Lemma X5_witness :
  In ("E"%char, true) (redact_marked [ssn_re] (plain sample_line))
  /\ In "E"%char REDACTED.
Proof.
  assert (H : In ("E"%char, true)
                 (redact_marked [ssn_re] (plain sample_line))).
  { vm_compute. do 51 right. left. reflexivity. }
  split; [exact H|].
  exact (proj2 (proj2 (X5_redaction_keeps_order [ssn_re] sample_line))
               ("E"%char, true) H eq_refl).
Defined.

(** ** The gate looks at the timestamp only *)

Lemma digits_first_nonspace (n : nat) (t rest : text) :
  digits (S n) t ->
  exists c t', t ++ rest = c :: t' /\ is_space c = false.
Proof.
  intros [Hl Hall]. destruct t as [|c t]; [discriminate|].
  simpl in Hall. apply andb_true_iff in Hall. destruct Hall as [Hc _].
  exists c, (t ++ rest). split; [reflexivity|].
  apply digit_not_space. exact Hc.
Qed.

Lemma is_hms_first_nonspace (t rest : text) :
  is_hms t -> exists c t', t ++ rest = c :: t' /\ is_space c = false.
Proof.
  intros [h [m [s [-> [Hh _]]]]]. rewrite <- app_assoc.
  eapply digits_first_nonspace; eauto.
Qed.

Lemma stamp_first_nonspace (stamp rest : text) :
  shape_time stamp \/ shape_date_time is_space stamp
  \/ shape_month_day is_space stamp ->
  exists c t', stamp ++ rest = c :: t' /\ is_space c = false.
Proof.
  intros [H|[H|H]].
  - destruct H as [x [f [-> [Hx _]]]]. rewrite <- app_assoc.
    apply is_hms_first_nonspace. exact Hx.
  - destruct H as [d [sp [tm [-> [[y [m [d' [-> [Hy _]]]]] _]]]]].
    rewrite <- !app_assoc. eapply digits_first_nonspace; eauto.
  - destruct H as [mon [sp1 [day [sp2 [tm [-> [Hmon _]]]]]]].
    rewrite <- app_assoc. simpl in Hmon.
    repeat (destruct Hmon as [<-|Hmon];
            [eexists _, _; split; [reflexivity|reflexivity]|]).
    contradiction.
Qed.

Lemma leading_space_split (ws ws' : text) (c : ascii) (l r : text) :
  forallb is_space ws = true ->
  is_space c = false ->
  ws ++ l = ws' ++ c :: r ->
  exists ws'', ws' = ws ++ ws'' /\ l = ws'' ++ c :: r.
Proof.
  revert ws'. induction ws as [|x ws IH]; intros ws' Hws Hc E.
  - exists ws'. auto.
  - simpl in Hws. apply andb_true_iff in Hws. destruct Hws as [Hx Hws].
    destruct ws' as [|y ws'].
    + simpl in E. inversion E; subst. congruence.
    + simpl in E. inversion E; subst y.
      destruct (IH ws' Hws Hc H1) as [ws'' [-> ->]].
      exists ws''. auto.
Qed.

Lemma timestamp_start_leading (ws l : text) :
  forallb is_space ws = true ->
  (timestamp_start is_space (ws ++ l) <-> timestamp_start is_space l).
Proof.
  intros Hws. split.
  - intros [ws' [stamp [rest [E [Hws' Hshape]]]]].
    destruct (stamp_first_nonspace stamp rest Hshape) as [c [t' [Est Hc]]].
    rewrite Est in E.
    destruct (leading_space_split ws ws' c l t' Hws Hc E) as [ws'' [-> ->]].
    rewrite forallb_app in Hws'. apply andb_true_iff in Hws'.
    exists ws'', stamp, rest. rewrite Est. tauto.
  - intros [ws' [stamp [rest [-> [Hws' Hshape]]]]].
    exists (ws ++ ws'), stamp, rest. rewrite <- app_assoc.
    split; [reflexivity|]. split; [|exact Hshape].
    rewrite forallb_app, Hws, Hws'. reflexivity.
Qed.

(** X6.  The gate looks at nothing but the timestamp: whitespace added in
    front of a line, whitespace stripped from its end, and any text
    added after a line that passes leave the answer as it is. *)
Theorem X6_gate_ignores_surroundings (ws l tail : text) :
  forallb is_space ws = true ->
  starts_with_date_and_timestamp (ws ++ l)
  = starts_with_date_and_timestamp l
  /\ starts_with_date_and_timestamp (rstrip l)
     = starts_with_date_and_timestamp l
  /\ (starts_with_date_and_timestamp l = true ->
      starts_with_date_and_timestamp (l ++ tail) = true).
Proof.
  intros Hws. split; [|split].
  - apply eq_true_iff_eq. rewrite !gate_spec.
    apply timestamp_start_leading. exact Hws.
  - apply gate_rstrip.
  - rewrite !gate_spec. apply timestamp_start_app.
Qed.

Lemma X6_witness :
  forallb is_space (T "   ") = true
  /\ starts_with_date_and_timestamp (T "   " ++ T "x 12:00:00")
     = starts_with_date_and_timestamp (T "x 12:00:00")
  /\ starts_with_date_and_timestamp (T "12:00:00") = true
  /\ starts_with_date_and_timestamp (T "12:00:00" ++ T "ERROR") = true.
Proof.
  split; [reflexivity|].
  split; [exact (proj1 (X6_gate_ignores_surroundings
                          (T "   ") (T "x 12:00:00") [] eq_refl))|].
  split; [reflexivity|].
  exact (proj2 (proj2 (X6_gate_ignores_surroundings
                         [] (T "12:00:00") (T "ERROR") eq_refl)) eq_refl).
Defined.

(* ================================================================= *)
(** * Properties of the report *)

(** ** Escaping *)

Lemma replace_char_app (old : ascii) (new a b : text) :
  replace_char old new (a ++ b)
  = replace_char old new a ++ replace_char old new b.
Proof.
  induction a as [|x a IH]; simpl; [reflexivity|].
  rewrite IH, app_assoc. reflexivity.
Qed.

Lemma escape_app (a b : text) : escape (a ++ b) = escape a ++ escape b.
Proof. unfold escape. cbv zeta. rewrite !replace_char_app. reflexivity. Qed.

Lemma escape_single (c : ascii) : escape [c] = escape_char c.
Proof.
  destruct c as [b0 b1 b2 b3 b4 b5 b6 b7].
  destruct b0, b1, b2, b3, b4, b5, b6, b7; reflexivity.
Qed.

Lemma escape_flat_map (s : text) : escape s = flat_map escape_char s.
Proof.
  induction s as [|c s IH]; [reflexivity|].
  change (c :: s) with ([c] ++ s).
  rewrite escape_app, escape_single, IH. reflexivity.
Qed.

Lemma escape_char_safe (c : ascii) :
  forallb (fun x => negb (markup_char x)) (escape_char c) = true.
Proof.
  destruct c as [b0 b1 b2 b3 b4 b5 b6 b7].
  destruct b0, b1, b2, b3, b4, b5, b6, b7; reflexivity.
Qed.

Lemma escape_safe (s : text) :
  forallb (fun x => negb (markup_char x)) (escape s) = true.
Proof.
  rewrite escape_flat_map. induction s as [|c s IH]; simpl; [reflexivity|].
  rewrite forallb_app, escape_char_safe, IH. reflexivity.
Qed.

(** The six forms of an escaped character. *)
Lemma escape_char_cases (c : ascii) :
  (c = "&"%char /\ escape_char c = T "&amp;")
  \/ (c = "<"%char /\ escape_char c = T "&lt;")
  \/ (c = ">"%char /\ escape_char c = T "&gt;")
  \/ (c = dq /\ escape_char c = T "&quot;")
  \/ (c = "'"%char /\ escape_char c = T "&#x27;")
  \/ (c <> "&"%char /\ escape_char c = [c]).
Proof.
  unfold escape_char.
  destruct (Ascii.eqb_spec c "&"); [subst; left; split; reflexivity|].
  destruct (Ascii.eqb_spec c "<");
    [subst; right; left; split; reflexivity|].
  destruct (Ascii.eqb_spec c ">");
    [subst; do 2 right; left; split; reflexivity|].
  destruct (Ascii.eqb_spec c dq);
    [subst; do 3 right; left; split; reflexivity|].
  destruct (Ascii.eqb_spec c "'");
    [subst; do 4 right; left; split; reflexivity|].
  do 5 right. auto.
Qed.

Lemma escape_char_inj (c1 c2 : ascii) (e1 e2 : text) :
  escape_char c1 ++ e1 = escape_char c2 ++ e2 -> c1 = c2 /\ e1 = e2.
Proof.
  destruct (escape_char_cases c1)
    as [[-> E1]|[[-> E1]|[[-> E1]|[[-> E1]|[[-> E1]|[N1 E1]]]]]];
  destruct (escape_char_cases c2)
    as [[-> E2]|[[-> E2]|[[-> E2]|[[-> E2]|[[-> E2]|[N2 E2]]]]]];
  rewrite ?E1, ?E2; simpl; intros H; inversion H; subst;
    try (split; reflexivity); try congruence.
Qed.

Lemma escape_char_nonempty (c : ascii) : escape_char c <> [].
Proof.
  destruct (escape_char_cases c)
    as [[_ E]|[[_ E]|[[_ E]|[[_ E]|[[_ E]|[_ E]]]]]]; rewrite E; discriminate.
Qed.

(** The escaped form of a text contains no angle bracket and no quote,
    so the reason and the log text of a finding cannot open or close a
    tag or an attribute value in the report. *)
Lemma escape_no_markup (s : text) (c : ascii) :
  In c (escape s) ->
  c <> "<"%char /\ c <> ">"%char /\ c <> dq /\ c <> "'"%char.
Proof.
  intros Hin. pose proof (escape_safe s) as Hsafe.
  rewrite forallb_forall in Hsafe. specialize (Hsafe c Hin).
  unfold markup_char in Hsafe. apply negb_true_iff in Hsafe.
  repeat (apply orb_false_iff in Hsafe; destruct Hsafe as [Hsafe ?]).
  repeat split; intros ->; discriminate.
Qed.

(** Escaping loses nothing: two texts with the same escaped form are the
    same text. *)
Lemma escape_injective (s1 s2 : text) :
  escape s1 = escape s2 -> s1 = s2.
Proof.
  rewrite !escape_flat_map. revert s2.
  induction s1 as [|c1 s1 IH]; intros [|c2 s2] H; simpl in H.
  - reflexivity.
  - symmetry in H. apply app_eq_nil in H. destruct H as [H _].
    exfalso. apply (escape_char_nonempty c2 H).
  - apply app_eq_nil in H. destruct H as [H _].
    exfalso. apply (escape_char_nonempty c1 H).
  - apply escape_char_inj in H. destruct H as [-> H].
    f_equal. apply IH. exact H.
Qed.

(** Escaping works character by character, although it is written
    as five successive replacements: the ampersand, the two angle
    brackets, the double quote and the apostrophe each become their name
    once (the ampersand of a name is not escaped again), every other
    character stays; so escaping distributes over
    concatenation and leaves a text without these characters as it
    is. *)
Lemma escape_char_by_char (a b : text) :
  escape a = flat_map escape_char a
  /\ escape (a ++ b) = escape a ++ escape b
  /\ (forallb (fun c => negb (Ascii.eqb c "&" || markup_char c)) a = true ->
      escape a = a).
Proof.
  split; [apply escape_flat_map|]. split; [apply escape_app|].
  rewrite escape_flat_map. induction a as [|c a IH]; simpl; intros H.
  - reflexivity.
  - apply andb_true_iff in H. destruct H as [Hc H]. rewrite (IH H).
    apply negb_true_iff in Hc. unfold markup_char in Hc.
    repeat match goal with
           | [ E : _ || _ = false |- _ ] =>
               apply orb_false_iff in E; destruct E
           end.
    unfold escape_char.
    repeat match goal with
           | [ E : Ascii.eqb _ _ = false |- _ ] => rewrite E; clear E
           end.
    reflexivity.
Qed.

(** ** The document *)

Lemma write_rows_spec (rows : list finding) :
  forall f, write_rows rows f = f ++ flat_map html_row rows.
Proof.
  induction rows as [|r rows IH]; intros f; simpl.
  - rewrite app_nil_r. reflexivity.
  - rewrite IH. unfold write. rewrite <- app_assoc. reflexivity.
Qed.

Lemma infix_app_l (k a b : text) : infix k a -> infix k (a ++ b).
Proof.
  intros [pre [post ->]]. exists pre, (post ++ b).
  rewrite <- !app_assoc. reflexivity.
Qed.

Lemma infix_app_r (k a b : text) : infix k b -> infix k (a ++ b).
Proof.
  intros [pre [post ->]]. exists (a ++ pre), post.
  rewrite <- !app_assoc. reflexivity.
Qed.

Lemma infix_flat_map_row (f : finding) (rows : list finding) :
  In f rows -> infix (html_row f) (flat_map html_row rows).
Proof.
  induction rows as [|r rows IH]; intros Hin; cbn [flat_map];
    [contradiction|].
  destruct Hin as [->|Hin].
  - apply infix_app_l. exists [], []. rewrite app_nil_r. reflexivity.
  - apply infix_app_r. apply IH. exact Hin.
Qed.

Lemma write_section_row (title : text) (rows : list finding) (f0 : text)
      (f : finding) :
  In f rows -> infix (html_row f) (write_section title rows f0).
Proof.
  intros Hin. unfold write_section. cbv zeta.
  destruct rows as [|r rows]; [contradiction|].
  rewrite write_rows_spec. unfold write.
  apply infix_app_l. apply infix_app_r. apply infix_flat_map_row. exact Hin.
Qed.

Lemma write_section_keeps (k title : text) (rows : list finding)
      (f0 : text) :
  infix k f0 -> infix k (write_section title rows f0).
Proof.
  intros H. unfold write_section. cbv zeta.
  destruct rows as [|r rows]; [|rewrite write_rows_spec]; unfold write;
    repeat apply infix_app_l; exact H.
Qed.

(** X9.  Every finding of the three lists has its row in the report:
    its line number in decimal, its reason escaped and its text
    escaped.  No finding is dropped. *)
Theorem X9_every_finding_has_its_row (noisy sensitive severity : list finding)
        (f : finding) :
  In f noisy \/ In f sensitive \/ In f severity ->
  infix (html_row f) (generate_html noisy sensitive severity).
Proof.
  intros H. unfold generate_html. cbv zeta. unfold write at 1.
  apply infix_app_l. destruct H as [H|[H|H]].
  - do 2 apply write_section_keeps. apply write_section_row. exact H.
  - apply write_section_keeps. apply write_section_row. exact H.
  - apply write_section_row. exact H.
Qed.

Lemma X9_witness :
  (In {| line := 7; log := T "a<b"; reason := T "R&D" |}
      [ {| line := 7; log := T "a<b"; reason := T "R&D" |} ]
   \/ In {| line := 7; log := T "a<b"; reason := T "R&D" |} []
   \/ In {| line := 7; log := T "a<b"; reason := T "R&D" |} [])
  /\ infix (T "<tr><td>7</td><td>R&amp;D</td><td>a&lt;b</td></tr>")
           (generate_html
              [ {| line := 7; log := T "a<b"; reason := T "R&D" |} ] [] []).
Proof.
  assert (H : In {| line := 7; log := T "a<b"; reason := T "R&D" |}
                 [ {| line := 7; log := T "a<b"; reason := T "R&D" |} ]
              \/ In {| line := 7; log := T "a<b"; reason := T "R&D" |} []
              \/ In {| line := 7; log := T "a<b"; reason := T "R&D" |} []).
  { left. left. reflexivity. }
  split; [exact H|].
  exact (X9_every_finding_has_its_row
           [ {| line := 7; log := T "a<b"; reason := T "R&D" |} ] [] []
           {| line := 7; log := T "a<b"; reason := T "R&D" |} H).
Defined.

Lemma count_char_app (c : ascii) (a b : text) :
  count_char c (a ++ b) = count_char c a + count_char c b.
Proof. unfold count_char. rewrite filter_app, length_app. reflexivity. Qed.

Lemma count_char_absent (c : ascii) (s : text) :
  (forall x, In x s -> x <> c) -> count_char c s = 0.
Proof.
  unfold count_char. induction s as [|x s IH]; intros H; simpl.
  - reflexivity.
  - destruct (Ascii.eqb_spec c x) as [->|_].
    + exfalso. apply (H x); [left|]; reflexivity.
    + apply IH. intros y Hy. apply H. right. exact Hy.
Qed.

Lemma count_char_escape (c : ascii) (s : text) :
  markup_char c = true -> count_char c (escape s) = 0.
Proof.
  intros Hc. apply count_char_absent. intros x Hx ->.
  pose proof (escape_safe s) as Hsafe. rewrite forallb_forall in Hsafe.
  specialize (Hsafe c Hx). rewrite Hc in Hsafe. discriminate.
Qed.

Lemma uint_digits (d : Decimal.uint) (x : ascii) :
  In x (list_ascii_of_string (NilEmpty.string_of_uint d)) ->
  is_digit x = true.
Proof.
  induction d; simpl; intros H;
    try contradiction; destruct H as [<-|H]; auto.
Qed.

Lemma str_of_nat_digits (n : nat) (x : ascii) :
  In x (str_of_nat n) -> is_digit x = true.
Proof.
  unfold str_of_nat, T, NilZero.string_of_uint.
  destruct (Nat.to_uint n) eqn:E;
    try (rewrite <- E; apply uint_digits).
  simpl. intros [<-|[]]. reflexivity.
Qed.

Lemma count_char_str_of_nat (c : ascii) (n : nat) :
  markup_char c = true -> count_char c (str_of_nat n) = 0.
Proof.
  intros Hc. apply count_char_absent. intros x Hx ->.
  apply str_of_nat_digits in Hx.
  unfold markup_char in Hc.
  repeat (apply orb_true_iff in Hc; destruct Hc as [Hc|Hc]);
    apply Ascii.eqb_eq in Hc; subst; discriminate.
Qed.

Lemma split_at_first (c : ascii) :
  forall a b x y : text,
    ~ In c a -> ~ In c b ->
    a ++ c :: x = b ++ c :: y -> a = b /\ x = y.
Proof.
  induction a as [|p a IH]; intros [|q b] x y Ha Hb E; simpl in E.
  - inversion E. auto.
  - inversion E; subst. exfalso. apply Hb. left. reflexivity.
  - inversion E; subst. exfalso. apply Ha. left. reflexivity.
  - inversion E; subst q.
    destruct (IH b x y) as [-> ->]; auto.
    + intros H. apply Ha. right. exact H.
    + intros H. apply Hb. right. exact H.
Qed.

Lemma to_uint_not_nil (n : nat) : Nat.to_uint n <> Decimal.Nil.
Proof.
  intros E. pose proof (Unsigned.of_to n) as H. rewrite E in H.
  simpl in H. subst n. discriminate E.
Qed.

Lemma str_of_nat_inj (n m : nat) : str_of_nat n = str_of_nat m -> n = m.
Proof.
  unfold str_of_nat, T. intros E.
  apply (f_equal string_of_list_ascii) in E.
  rewrite !string_of_list_ascii_of_string in E.
  apply (f_equal NilZero.uint_of_string) in E.
  rewrite !NilZero.usu in E by apply to_uint_not_nil.
  inversion E. apply Unsigned.to_uint_inj. assumption.
Qed.

Lemma str_of_nat_no_lt (n : nat) : ~ In "<"%char (str_of_nat n).
Proof. intros H. apply str_of_nat_digits in H. discriminate H. Qed.

Lemma escape_no_lt (s : text) : ~ In "<"%char (escape s).
Proof.
  intros H. pose proof (escape_safe s) as Hsafe.
  rewrite forallb_forall in Hsafe. specialize (Hsafe _ H). discriminate.
Qed.

(** X8.  A row of the report determines its finding: two findings with
    the same row have the same line number, the same reason and the same
    text.  The report loses nothing of a finding. *)
Theorem X8_row_determines_finding (f1 f2 : finding) :
  html_row f1 = html_row f2 -> f1 = f2.
Proof.
  destruct f1 as [n1 l1 r1], f2 as [n2 l2 r2]. unfold html_row.
  cbn [line log reason]. intros E.
  apply app_inv_head in E.
  change (T "</td>" ++ T "<td>" ++ escape r1 ++ T "</td>" ++ T "<td>"
          ++ escape l1 ++ T "</td></tr>")
    with ("<"%char :: T "/td><td>" ++ escape r1 ++ "<"%char
          :: T "/td><td>" ++ escape l1 ++ "<"%char :: T "/td></tr>") in E.
  change (T "</td>" ++ T "<td>" ++ escape r2 ++ T "</td>" ++ T "<td>"
          ++ escape l2 ++ T "</td></tr>")
    with ("<"%char :: T "/td><td>" ++ escape r2 ++ "<"%char
          :: T "/td><td>" ++ escape l2 ++ "<"%char :: T "/td></tr>") in E.
  apply split_at_first in E; try apply str_of_nat_no_lt.
  destruct E as [En E]. apply str_of_nat_inj in En.
  apply app_inv_head in E.
  apply split_at_first in E; try apply escape_no_lt.
  destruct E as [Er E]. apply escape_injective in Er.
  apply app_inv_head in E.
  apply split_at_first in E; try apply escape_no_lt.
  destruct E as [El _]. apply escape_injective in El.
  subst. reflexivity.
Qed.

Lemma X8_witness :
  html_row {| line := 4; log := T "a&b"; reason := T "x" |}
  = html_row {| line := 4; log := T "a&b"; reason := T "x" |}
  /\ {| line := 4; log := T "a&b"; reason := T "x" |}
     = {| line := 4; log := T "a&b"; reason := T "x" |}.
Proof.
  split; [reflexivity|].
  exact (X8_row_determines_finding
           {| line := 4; log := T "a&b"; reason := T "x" |}
           {| line := 4; log := T "a&b"; reason := T "x" |} eq_refl).
Defined.

Lemma count_char_row (c : ascii) (r : finding) :
  c = "<"%char \/ c = ">"%char -> count_char c (html_row r) = 8.
Proof.
  intros Hc.
  assert (Hm : markup_char c = true) by (destruct Hc; subst; reflexivity).
  unfold html_row. rewrite !count_char_app.
  rewrite !(count_char_escape c _ Hm), (count_char_str_of_nat c _ Hm).
  destruct Hc; subst; reflexivity.
Qed.

Lemma count_char_rows (c : ascii) (rows : list finding) :
  c = "<"%char \/ c = ">"%char ->
  count_char c (flat_map html_row rows) = 8 * length rows.
Proof.
  intros Hc. induction rows as [|r rows IH]; cbn [flat_map length];
    [reflexivity|].
  rewrite count_char_app, (count_char_row c r Hc), IH. lia.
Qed.

Ltac count_literals :=
  repeat match goal with
         | [ |- context [count_char ?c (T ?s)] ] =>
             let v := eval vm_compute in (count_char c (T s)) in
             change (count_char c (T s)) with v
         | [ |- context [count_char ?c no_issues_row] ] =>
             let v := eval vm_compute in (count_char c no_issues_row) in
             change (count_char c no_issues_row) with v
         | [ |- context [count_char ?c html_header] ] =>
             let v := eval vm_compute in (count_char c html_header) in
             change (count_char c html_header) with v
         end.

Lemma count_char_section (c : ascii) (title : text) (rows : list finding)
      (f : text) :
  c = "<"%char \/ c = ">"%char ->
  count_char c (write_section title rows f)
  = count_char c f + count_char c title + 12 + row_tags rows.
Proof.
  intros Hc. unfold write_section. cbv zeta. destruct rows as [|r rows].
  - unfold write. rewrite !count_char_app. unfold row_tags.
    destruct Hc; subst; count_literals; lia.
  - rewrite write_rows_spec. unfold write. rewrite !count_char_app.
    rewrite (count_char_rows c (r :: rows) Hc). unfold row_tags.
    destruct Hc; subst; count_literals; lia.
Qed.

(** X10.  The tags of the report do not depend on what the findings say:
    the number of [<] and the number of [>] in the document are fixed by
    the number of findings in each list (four per section without
    finding, eight per finding).  Reasons and texts never add a tag. *)
Theorem X10_markup_fixed_by_row_counts (noisy sensitive severity : list finding)
        (c : ascii) :
  c = "<"%char \/ c = ">"%char ->
  count_char c (generate_html noisy sensitive severity)
  = 48 + row_tags noisy + row_tags sensitive + row_tags severity.
Proof.
  intros Hc. unfold generate_html. cbv zeta. unfold write at 1.
  rewrite count_char_app, !(count_char_section c _ _ _ Hc).
  unfold write. rewrite app_nil_l.
  destruct Hc; subst; count_literals; lia.
Qed.

Lemma X10_witness :
  ("<"%char = "<"%char \/ "<"%char = ">"%char)
  /\ count_char "<"
       (generate_html
          [ {| line := 3; log := T "<script>alert(1)</script>";
               reason := T "<b>" |} ] [] [])
     = 48 + 8 + 4 + 4.
Proof.
  split; [left; reflexivity|].
  exact (X10_markup_fixed_by_row_counts
           [ {| line := 3; log := T "<script>alert(1)</script>";
                reason := T "<b>" |} ] [] [] "<"%char
           (or_introl eq_refl)).
Defined.

(* ================================================================= *)
(** * Properties of the rules loader *)

Lemma key_missing_false (d : pydict) (k : text) :
  key_missing d k = false <->
  exists v, dict_get k d = Some v /\ v <> YNone.
Proof.
  unfold key_missing. destruct (dict_get k d) as [v|]; [destruct v|];
    split; try discriminate; try reflexivity.
  - intros [v [E Hv]]. inversion E; subst. congruence.
  - intros _. eexists. split; [reflexivity|discriminate].
  - intros _. eexists. split; [reflexivity|discriminate].
  - intros _. eexists. split; [reflexivity|discriminate].
  - intros [v [E _]]. discriminate.
Qed.

Lemma key_missing_true (d : pydict) (k : text) :
  key_missing d k = true <->
  dict_get k d = None \/ dict_get k d = Some YNone.
Proof.
  unfold key_missing. destruct (dict_get k d) as [v|]; [destruct v|];
    split; auto; try discriminate; intros [H|H]; discriminate.
Qed.

Lemma filter_nil_iff (A : Type) (f : A -> bool) (l : list A) :
  filter f l = [] <-> forall x, In x l -> f x = false.
Proof.
  induction l as [|x l IH]; simpl.
  - split; [intros _ y []|reflexivity].
  - destruct (f x) eqn:E; split.
    + discriminate.
    + intros H. specialize (H x (or_introl eq_refl)). congruence.
    + intros H y [<-|Hy]; [exact E|]. apply IH; assumption.
    + intros H. apply IH. intros y Hy. apply H. right. exact Hy.
Qed.

(** X11.  [load_rules] returns the loaded mapping, unchanged, exactly
    when the document is a mapping in which each of the four required
    keys is present with a value other than [None]; a document that is
    not a mapping (an empty file loads as [None]) is refused as such;
    and whenever [load_rules] does not return it exits with status 1. *)
Theorem X11_load_rules_accepts (path : text) (ev : load_event) :
  (forall d,
      load_rules path ev = Return d <->
      ev = Loaded (YMap d)
      /\ forall k, In k required_keys ->
                   exists v, dict_get k d = Some v /\ v <> YNone)
  /\ (forall doc,
        ev = Loaded doc -> (forall d, doc <> YMap d) ->
        load_rules path ev
        = Exit 1 (T "Error: rules.yml is empty or not a valid YAML mapping."))
  /\ (forall status message,
        load_rules path ev = Exit status message -> status = 1).
Proof.
  split; [|split].
  - intros d. split.
    + destruct ev as [| | | |[| | |d']]; unfold load_rules;
        try (intros H; discriminate H).
      destruct (filter (key_missing d') required_keys) eqn:E;
        [|intros H; discriminate H].
      intros H. inversion H; subst d'. split; [reflexivity|].
      intros k Hk. apply key_missing_false.
      apply (proj1 (filter_nil_iff _ _ _) E k Hk).
    + intros [-> H]. unfold load_rules.
      replace (filter (key_missing d) required_keys) with (@nil text);
        [reflexivity|].
      symmetry. apply filter_nil_iff. intros k Hk.
      apply key_missing_false. apply H. exact Hk.
  - intros doc -> Hdoc. destruct doc; try reflexivity.
    exfalso. apply (Hdoc l). reflexivity.
  - intros status message.
    destruct ev as [| | | |[| | |d']]; unfold load_rules;
      try (intros H; inversion H; reflexivity).
    destruct (filter (key_missing d') required_keys);
      intros H; inversion H; reflexivity.
Qed.

Lemma X11_witness :
  Loaded YNone = Loaded YNone
  /\ (forall d, YNone <> YMap d)
  /\ load_rules (T "rules.yml") (Loaded YNone)
     = Exit 1 (T "Error: rules.yml is empty or not a valid YAML mapping.").
Proof.
  assert (H : forall d, YNone <> YMap d) by (intros d; discriminate).
  split; [reflexivity|]. split; [exact H|].
  exact (proj1 (proj2 (X11_load_rules_accepts (T "rules.yml") (Loaded YNone)))
               YNone eq_refl H).
Defined.

Lemma required_keys_nodup : NoDup required_keys.
Proof.
  unfold required_keys.
  repeat (constructor;
          [simpl; intros H;
           repeat (destruct H as [H|H]; [discriminate H|]); exact H|]).
  constructor.
Qed.

(** X12.  When a loaded mapping lacks required keys, [load_rules] exits
    with status 1 and a message that names, separated by commas, exactly
    the required keys that are absent or [None], each once; keys that
    are present are not named. *)
Theorem X12_load_rules_names_missing_keys (path : text) (d : pydict) :
  (exists k, In k required_keys /\ key_missing d k = true) ->
  exists missing,
    load_rules path (Loaded (YMap d))
    = Exit 1 (T "Error: rules.yml is missing required keys: "
              ++ join (T ", ") missing)
    /\ NoDup missing
    /\ forall k,
        In k missing <->
        In k required_keys
        /\ (dict_get k d = None \/ dict_get k d = Some YNone).
Proof.
  intros [k0 [Hk0 Hm0]].
  exists (filter (key_missing d) required_keys). split; [|split].
  - unfold load_rules.
    destruct (filter (key_missing d) required_keys) eqn:E; [|reflexivity].
    exfalso. pose proof (proj1 (filter_nil_iff _ _ _) E k0 Hk0). congruence.
  - apply NoDup_filter. apply required_keys_nodup.
  - intros k. rewrite filter_In, key_missing_true. reflexivity.
Qed.

Lemma X12_witness :
  (exists k, In k required_keys
             /\ key_missing [(KeyStr (T "failure_keywords"), YSeq []);
                             (KeyStr (T "noisy_log_levels"), YNone);
                             (KeyStr (T "sensitive_patterns"), YSeq [])] k
                = true)
  /\ exists missing,
      load_rules (T "rules.yml")
        (Loaded (YMap [(KeyStr (T "failure_keywords"), YSeq []);
                       (KeyStr (T "noisy_log_levels"), YNone);
                       (KeyStr (T "sensitive_patterns"), YSeq [])]))
      = Exit 1 (T "Error: rules.yml is missing required keys: "
                ++ join (T ", ") missing)
      /\ NoDup missing
      /\ forall k,
          In k missing <->
          In k required_keys
          /\ (dict_get k [(KeyStr (T "failure_keywords"), YSeq []);
                          (KeyStr (T "noisy_log_levels"), YNone);
                          (KeyStr (T "sensitive_patterns"), YSeq [])] = None
              \/ dict_get k [(KeyStr (T "failure_keywords"), YSeq []);
                             (KeyStr (T "noisy_log_levels"), YNone);
                             (KeyStr (T "sensitive_patterns"), YSeq [])]
                 = Some YNone).
Proof.
  assert (H : exists k, In k required_keys
                /\ key_missing [(KeyStr (T "failure_keywords"), YSeq []);
                                (KeyStr (T "noisy_log_levels"), YNone);
                                (KeyStr (T "sensitive_patterns"), YSeq [])] k
                   = true).
  { exists (T "noisy_log_levels"). split; [simpl; tauto|reflexivity]. }
  split; [exact H|].
  exact (X12_load_rules_names_missing_keys (T "rules.yml") _ H).
Defined.

(** The message for a mapping that has neither noisy levels (the key is
    there, with no value) nor required severities. *)
Example load_rules_two_missing :
  load_rules (T "rules.yml")
    (Loaded (YMap [(KeyStr (T "failure_keywords"), YSeq []);
                   (KeyStr (T "noisy_log_levels"), YNone);
                   (KeyStr (T "sensitive_patterns"), YSeq [])]))
  = Exit 1 (T "Error: rules.yml is missing required keys: noisy_log_levels, required_severity_on_failure").
Proof. reflexivity. Qed.

(* ================================================================= *)
(** * An empty failure keyword *)

(** X7.  The empty string is a substring of every line: when it is one
    of the failure keywords, every gated line whose level is not a
    required severity is reported as a severity violation, whatever the
    line says. *)
Theorem X7_empty_keyword_flags_every_line (rs : rules) (lines : list text)
        (n : nat) (raw : text) :
  In [] (failure_keywords rs) ->
  nth_error lines n = Some raw ->
  starts_with_date_and_timestamp raw = true ->
  ~ In (detect_level (rstrip raw)) (required_severity_on_failure rs) ->
  findings_on (S n) (severity_violations (analyze rs lines))
  = [ {| line := S n;
         log := redact_sensitive (sensitive_patterns rs) (rstrip raw);
         reason :=
           T "Failure logged without required severity: "
           ++ join (T ", ") (required_severity_on_failure rs) |} ].
Proof.
  intros Hk Hn Hgate Hlevel. rewrite <- gate_rstrip in Hgate.
  rewrite analyze_severity_on, Hn. unfold severity_of. cbv zeta.
  rewrite Hgate. apply mem_false in Hlevel. rewrite Hlevel.
  assert (Hany : any_failure_keyword rs (rstrip raw) = true).
  { unfold any_failure_keyword. apply existsb_exists. exists [].
    split; [exact Hk|]. destruct (str_lower (rstrip raw)); reflexivity. }
  rewrite Hany. unfold severity_finding. rewrite sensitive_res_eq.
  reflexivity.
Qed.

Lemma X7_witness :
  In ([] : text) [[]]
  /\ nth_error [T "12:00:00 INFO all is well"] 0
     = Some (T "12:00:00 INFO all is well")
  /\ starts_with_date_and_timestamp (T "12:00:00 INFO all is well") = true
  /\ ~ In (detect_level (rstrip (T "12:00:00 INFO all is well")))
          [T "ERROR"]
  /\ findings_on 1
       (severity_violations
          (analyze {| sensitive_patterns := [];
                      failure_keywords := [[]];
                      noisy_log_levels := [];
                      required_severity_on_failure := [T "ERROR"] |}
                   [T "12:00:00 INFO all is well"]))
     = [ {| line := 1;
            log := T "12:00:00 INFO all is well";
            reason := T "Failure logged without required severity: ERROR" |} ].
Proof.
  assert (Hl : ~ In (detect_level (rstrip (T "12:00:00 INFO all is well")))
                    [T "ERROR"]).
  { vm_compute. intros [H|[]]. discriminate H. }
  split; [left; reflexivity|]. split; [reflexivity|].
  split; [reflexivity|]. split; [exact Hl|].
  exact (X7_empty_keyword_flags_every_line
           {| sensitive_patterns := [];
              failure_keywords := [[]];
              noisy_log_levels := [];
              required_severity_on_failure := [T "ERROR"] |}
           [T "12:00:00 INFO all is well"] 0
           (T "12:00:00 INFO all is well")
           (or_introl eq_refl) eq_refl eq_refl Hl).
Defined.
